(** * easy_imap: a verified model of [connection.py]

    The development embeds the helpers [_parse_list_response] and [_ok] and
    the classes [Connection], [MailBox] and [Message] of [connection.py],
    and proves the properties stated about them.

    Python strings are [string]; a raised exception is an explicit value of
    [exn]; the methods run in a state-and-exception monad whose state is the
    one [Connection] object that every [MailBox] and [Message] handle refers
    to through its [connection] attribute. *)

From Stdlib Require Import String Ascii List Bool Arith Lia.
Import ListNotations.
Open Scope string_scope.

(** ** Characters and strings of the Python runtime *)

Module Str.

(** The double quote, the line feed and the space. *)
Definition dquote : ascii := "034"%char.
Definition newline : ascii := "010"%char.
Definition space : ascii := " "%char.

(** The one-character string holding a double quote. *)
Definition q : string := String dquote EmptyString.

(** [s.split(sep)] for a one-character separator: the string is cut at
    every occurrence of [sep]; empty pieces are kept. *)
Fixpoint split (sep : ascii) (s : string) : list string :=
  match s with
  | EmptyString => [EmptyString]
  | String c r =>
      if Ascii.eqb c sep then EmptyString :: split sep r
      else match split sep r with
           | p :: ps => String c p :: ps
           | [] => [String c EmptyString]
           end
  end.

(** [sep.join(l)]. *)
Fixpoint join (sep : string) (l : list string) : string :=
  match l with
  | [] => EmptyString
  | [x] => x
  | x :: r => x ++ sep ++ join sep r
  end.

(** [s.lstrip(c)], [s.rstrip(c)] and [s.strip(c)] for a one-character
    set: every leading (trailing) occurrence of [c] is removed. *)
Fixpoint lstrip (c : ascii) (s : string) : string :=
  match s with
  | String a r => if Ascii.eqb a c then lstrip c r else s
  | EmptyString => EmptyString
  end.

Fixpoint rstrip (c : ascii) (s : string) : string :=
  match s with
  | EmptyString => EmptyString
  | String a r =>
      match rstrip c r with
      | EmptyString => if Ascii.eqb a c then EmptyString else String a EmptyString
      | r' => String a r'
      end
  end.

Definition strip (c : ascii) (s : string) : string := rstrip c (lstrip c s).

(** The characters of a string, as Python iterates over a [str]. *)
Fixpoint chars (s : string) : list string :=
  match s with
  | EmptyString => []
  | String c r => String c EmptyString :: chars r
  end.

(** No character of [s] is [c]. *)
Fixpoint lacks (c : ascii) (s : string) : bool :=
  match s with
  | EmptyString => true
  | String a r => negb (Ascii.eqb a c) && lacks c r
  end.

(** Every character of [s] is [c]. *)
Fixpoint only (c : ascii) (s : string) : bool :=
  match s with
  | EmptyString => true
  | String a r => Ascii.eqb a c && only c r
  end.

(** The first (last) character of [s] is [c]. *)
Definition first_is (c : ascii) (s : string) : bool :=
  match s with
  | String a _ => Ascii.eqb a c
  | EmptyString => false
  end.

Fixpoint last_is (c : ascii) (s : string) : bool :=
  match s with
  | EmptyString => false
  | String a EmptyString => Ascii.eqb a c
  | String _ r => last_is c r
  end.

(** [s.startswith(p)] and [p in s]. *)
Fixpoint startswith (p s : string) : bool :=
  match p, s with
  | EmptyString, _ => true
  | String a p', String b s' => Ascii.eqb a b && startswith p' s'
  | String _ _, EmptyString => false
  end.

Fixpoint occurs (p s : string) : bool :=
  startswith p s
  || match s with
     | EmptyString => false
     | String _ r => occurs p r
     end.

End Str.

(** ** The regular expression of the module *)

Module Re.

(** The fragment of Python's [re] syntax that [_list_response_pattern]
    uses: a literal character, and a capturing group around [.*] (greedy)
    or [.*?] (lazy).  The dot matches every character but the line
    feed. *)
Inductive item :=
| Lit (c : ascii)
| Group (name : string) (greedy : bool).

Definition pattern := list item.

Definition dot (c : ascii) : bool := negb (Ascii.eqb c Str.newline).

(** [.*] followed by the continuation [k]: the longest run of dot
    characters after which [k] succeeds (the backtracking matcher gives
    characters back one at a time). *)
Fixpoint star_greedy {G : Type} (k : string -> option G) (s : string)
  : option (string * G) :=
  match s with
  | EmptyString => option_map (pair EmptyString) (k s)
  | String c r =>
      match (if dot c then star_greedy k r else None) with
      | Some (cap, g) => Some (String c cap, g)
      | None => option_map (pair EmptyString) (k s)
      end
  end.

(** [.*?] followed by [k]: the shortest run of dot characters after
    which [k] succeeds. *)
Fixpoint star_lazy {G : Type} (k : string -> option G) (s : string)
  : option (string * G) :=
  match s with
  | EmptyString => option_map (pair EmptyString) (k s)
  | String c r =>
      match k s with
      | Some g => Some (EmptyString, g)
      | None =>
          if dot c then
            match star_lazy k r with
            | Some (cap, g) => Some (String c cap, g)
            | None => None
            end
          else None
      end
  end.

(** Matching a pattern at the start of a string; the result is the list
    of captured groups, in the order of the groups. *)
Fixpoint run (p : pattern) : string -> option (list string) :=
  match p with
  | [] => fun _ => Some []
  | Lit c :: p' =>
      fun s =>
        match s with
        | String a r => if Ascii.eqb a c then run p' r else None
        | EmptyString => None
        end
  | Group _ greedy :: p' =>
      fun s =>
        match (if greedy then star_greedy (run p') s
               else star_lazy (run p') s) with
        | Some (cap, gs) => Some (cap :: gs)
        | None => None
        end
  end.

(** [pattern.match(s)]: the match object (here its [groups()]) or
    [None]. *)
Definition match_ (p : pattern) (s : string) : option (list string) := run p s.

End Re.

(** [_list_response_pattern]: an opening parenthesis, the lazy group
    [flags], a closing parenthesis, a space, a double quote, the greedy
    group [delimiter], a double quote, a space, the greedy group [name]. *)
Definition _list_response_pattern : Re.pattern :=
  [ Re.Lit "("%char; Re.Group "flags" false; Re.Lit ")"%char;
    Re.Lit Str.space; Re.Lit Str.dquote; Re.Group "delimiter" true;
    Re.Lit Str.dquote; Re.Lit Str.space; Re.Group "name" true ].

(** ** Exceptions *)

(** The exception classes of the module ([BadReturnStatus],
    [ReadOnlyException]), the built-in ones its code can raise, and the
    error class of the IMAP library. Each carries its message. *)
Inductive exn :=
| BadReturnStatus (msg : string)
| ReadOnlyException
| AttributeError (msg : string)
| IndexError (msg : string)
| ValueError (msg : string)
| IMAP4_error (msg : string).

Inductive result (A : Type) :=
| Ok (a : A)
| Raise (e : exn).
Arguments Ok {A} a.
Arguments Raise {A} e.

(** The arguments an exception object carries. *)
Definition exn_args (e : exn) : list string :=
  match e with
  | BadReturnStatus m | AttributeError m | IndexError m
  | ValueError m | IMAP4_error m => [m]
  | ReadOnlyException => []
  end.

(** What calling [.groups()] on [None] raises. *)
Definition none_has_no_groups : exn :=
  AttributeError "'NoneType' object has no attribute 'groups'".

(** ** The helpers *)

(** [_parse_list_response(line)] *)
Definition _parse_list_response (line : string)
  : result (string * string * string) :=
  match Re.match_ _list_response_pattern line with
  | None => Raise none_has_no_groups
  | Some [flags; delimiter; mailbox_name] =>
      let mailbox_name := Str.strip Str.dquote mailbox_name in
      Ok (flags, delimiter, mailbox_name)
  | Some _ => Raise (ValueError "wrong number of values to unpack")
  end.

(** [_ok(ok)] *)
Definition _ok (ok : string) : result unit :=
  if negb (String.eqb ok "OK")
  then Raise (BadReturnStatus ("status was " ++ ok))
  else Ok tt.

(** ** The transport and the state *)

(** What a transport method returns on success: a list of strings (raw
    lines, tokens or flag results). *)
Definition payload := list string.

(** A call of a method of the [IMAP4_SSL] object [parent], reached from
    [Connection] through the underscore prefix of [__getattr__]:
    [self._select] is [self.parent.select], and so on. Keyword arguments
    passed through unchanged are left out. *)
Inductive call :=
| login_call (user password : string)
| list_call (args : list string)
| select_call (mailbox : string) (readonly : bool)
| search_call (charset : option string) (criteria : list string)
| fetch_call (num_string command : string)
| store_call (message command flags : string).

(** The [IMAP4_SSL] object: the server's behaviour, which answers a call
    given the calls made before it with a status and a payload or with an
    exception, and the calls made so far, oldest first. *)
Record IMAP4_SSL := {
  respond : list call -> call -> result (string * payload);
  calls : list call
}.

(** The attributes of a [Connection] object. *)
Record Connection := {
  mailbox : string;
  readonly : bool;
  parent : IMAP4_SSL
}.

(** The attributes of a [MailBox] object; [connection] is the state of the
    monad. *)
Record MailBox := {
  _mailbox : string;
  _readonly : bool
}.

(** A [Message] is a [MailBox] with a number. *)
Record Message := {
  as_MailBox : MailBox;
  num : string
}.

(** Computations on the connection: a result or an exception, and the
    connection as the computation left it. *)
Definition M (A : Type) : Type := Connection -> result A * Connection.

Definition ret {A} (a : A) : M A := fun self => (Ok a, self).

Definition raise {A} (e : exn) : M A := fun self => (Raise e, self).

Definition bind {A B} (m : M A) (f : A -> M B) : M B :=
  fun self =>
    match m self with
    | (Ok a, self') => f a self'
    | (Raise e, self') => (Raise e, self')
    end.

Definition lift {A} (r : result A) : M A := fun self => (r, self).

Notation "x <- m ;; k" := (bind m (fun x => k))
  (at level 61, m at next level, right associativity).
Notation "' pat <- m ;; k" := (bind m (fun x => match x with pat => k end))
  (at level 61, pat pattern, m at next level, right associativity).
Notation "m ;;; k" := (bind m (fun _ => k))
  (at level 61, right associativity).

(** One call on [self.parent]: the call is recorded, and the server's
    answer returned or raised. *)
Definition transport (c : call) : M (string * payload) :=
  fun self =>
    let p := parent self in
    (respond p (calls p) c,
     {| mailbox := mailbox self;
        readonly := readonly self;
        parent := {| respond := respond p; calls := calls p ++ [c] |} |}).

Definition set_mailbox (m : string) : M unit :=
  fun self =>
    (Ok tt, {| mailbox := m; readonly := readonly self; parent := parent self |}).

Definition set_readonly (r : bool) : M unit :=
  fun self =>
    (Ok tt, {| mailbox := mailbox self; readonly := r; parent := parent self |}).

Definition get_mailbox : M string := fun self => (Ok (mailbox self), self).
Definition get_readonly : M bool := fun self => (Ok (readonly self), self).

(** [l[0]] *)
Definition index0 {A} (l : list A) : result A :=
  match l with
  | x :: _ => Ok x
  | [] => Raise (IndexError "list index out of range")
  end.

(** ** class Connection *)

(** A mailbox listing: a Python dict from names to the record of flags and
    delimiter, as the list of its items in insertion order. *)
Definition box_record := (string * string)%type.
Definition listing := list (string * box_record).

(** [boxes[name] = this_box] *)
Fixpoint dict_set (boxes : listing) (name : string) (this_box : box_record)
  : listing :=
  match boxes with
  | [] => [(name, this_box)]
  | (k, v) :: r =>
      if String.eqb k name then (k, this_box) :: r
      else (k, v) :: dict_set r name this_box
  end.

(** [Connection.login] *)
Definition Connection_login (user password : string) : M string :=
  '(ok, value) <- transport (login_call user password) ;;
  lift (_ok ok) ;;;
  lift (index0 value).

(** The loop of [Connection.list] over the lines of the listing. *)
Fixpoint list_loop (boxlist : list string) (boxes : listing) : result listing :=
  match boxlist with
  | [] => Ok boxes
  | box_line :: rest =>
      match _parse_list_response box_line with
      | Ok (flags, delimiter, name) =>
          list_loop rest (dict_set boxes name (flags, delimiter))
      | Raise e => Raise e
      end
  end.

(** [Connection.list] *)
Definition Connection_list (args : list string) : M listing :=
  '(ok, boxlist) <- transport (list_call args) ;;
  lift (_ok ok) ;;;
  lift (list_loop boxlist []).

(** [Connection.switch] *)
Definition Connection_switch (mailbox : string) (readonly : bool) : M unit :=
  '(ok, messages) <- transport (select_call mailbox readonly) ;;
  lift (_ok ok) ;;;
  set_mailbox mailbox ;;;
  old <- get_readonly ;;
  set_readonly old.

(** [Connection.select] *)
Definition Connection_select (mailbox : string) (readonly : bool) : M MailBox :=
  Connection_switch mailbox readonly ;;;
  ret {| _mailbox := mailbox; _readonly := readonly |}.

(** [Connection.search] *)
Definition Connection_search (args : list string) (charset : option string)
  : M (list string) :=
  '(ok, results) <- transport (search_call charset args) ;;
  lift (_ok ok) ;;;
  r0 <- lift (index0 results) ;;
  if String.eqb r0 EmptyString then ret []
  else ret (Str.split Str.space r0).

(** [Connection.fetch]; [nums] holds [str(n)] for each [n] the loop over
    the argument yields. *)
Definition Connection_fetch (nums : list string) (args : list string)
  : M payload :=
  let num_string := Str.join " " nums in
  let command := "(" ++ Str.join " " args ++ ")" in
  '(ok, result) <- transport (fetch_call num_string command) ;;
  lift (_ok ok) ;;;
  ret result.

(** The loop of [Connection.store]. *)
Fixpoint store_loop (messages : list string) (command flags : string)
  (new_flag_list : list payload) : M (list payload) :=
  match messages with
  | [] => ret new_flag_list
  | message :: rest =>
      '(ok, new_flags) <- transport (store_call message command flags) ;;
      lift (_ok ok) ;;;
      store_loop rest command flags (new_flag_list ++ [new_flags])
  end.

(** [Connection.store] *)
Definition Connection_store (messages : list string) (flags : string)
  (command : string) (silent : bool) : M (list payload) :=
  let command := command ++ "FLAGS" in
  let command := if silent then command ++ ".SILENT" else command in
  store_loop messages command flags [].

(** ** class MailBox *)

(** [MailBox._select] *)
Definition MailBox__select (self : MailBox) : M unit :=
  current <- get_mailbox ;;
  if negb (String.eqb current (_mailbox self))
  then Connection_switch (_mailbox self) (_readonly self)
  else ret tt.

(** [MailBox.search] *)
Definition MailBox_search (self : MailBox) (args : list string)
  (charset : option string) : M (list Message) :=
  MailBox__select self ;;;
  found <- Connection_search args charset ;;
  ret (map (fun message => {| as_MailBox := self; num := message |}) found).

(** [MailBox.fetch] *)
Definition MailBox_fetch (self : MailBox) (nums : list string)
  (args : list string) : M payload :=
  MailBox__select self ;;;
  Connection_fetch nums args.

(** [MailBox.store] *)
Definition MailBox_store (self : MailBox) (messages : list string)
  (flags : string) (command : string) (silent : bool) : M (list payload) :=
  if _readonly self then raise ReadOnlyException
  else
    MailBox__select self ;;;
    Connection_store messages flags command silent.

(** ** class Message *)

(** [Message.fetch]: the number is passed as the string [str(self.num)],
    over whose characters [Connection.fetch] then loops. *)
Definition Message_fetch (self : Message) (args : list string) : M payload :=
  MailBox_fetch (as_MailBox self) (Str.chars (num self)) args.

(** [Message.store] *)
Definition Message_store (self : Message) (flags : string)
  (command : string) (silent : bool) : M payload :=
  new_flags <- MailBox_store (as_MailBox self) [num self] flags command silent ;;
  lift (index0 new_flags).

(** ** Measures on the state *)

Definition is_select (c : call) : bool :=
  match c with select_call _ _ => true | _ => false end.

(** How many select (or examine) calls the transport has received. *)
Definition select_count (self : Connection) : nat :=
  length (filter is_select (calls (parent self))).

(** The command token [Connection.store] sends. *)
Definition store_command (command : string) (silent : bool) : string :=
  if silent then (command ++ "FLAGS") ++ ".SILENT" else command ++ "FLAGS".

(** Every method keeps the server of the connection. *)
Definition same_server (self self' : Connection) : Prop :=
  respond (parent self') = respond (parent self).

(** The selection is unchanged from [self] to [self'] when the cached
    mailbox and read-only flag are the same and no select call was made. *)
Definition unchanged_selection (self self' : Connection) : Prop :=
  mailbox self' = mailbox self
  /\ readonly self' = readonly self
  /\ select_count self' = select_count self.

(** A computation is quiet when it leaves the selection unchanged from
    every state. *)
Definition quiet {A} (m : M A) : Prop :=
  forall self, unchanged_selection self (snd (m self)).

(** The pattern after its group of flags, and after its group of the
    delimiter. *)
Definition after_flags : Re.pattern :=
  [ Re.Lit ")"%char; Re.Lit Str.space; Re.Lit Str.dquote;
    Re.Group "delimiter" true;
    Re.Lit Str.dquote; Re.Lit Str.space; Re.Group "name" true ].

Definition after_delimiter : Re.pattern :=
  [ Re.Lit Str.dquote; Re.Lit Str.space; Re.Group "name" true ].

(** ** The rest of class Connection *)

(** [name[1:]] *)
Definition tail_of (name : string) : string :=
  match name with
  | String _ r => r
  | EmptyString => EmptyString
  end.

(** [Connection.__getattr__], which Python calls for a name that the
    object itself does not define. The attributes of [self.parent] are
    given by [parent_getattr], which answers [None] for a name the parent
    lacks ([hasattr] is false). *)
Definition Connection___getattr__ {V : Type}
  (parent_getattr : string -> option V) (name : string) : result V :=
  if Str.startswith "_" name then
    match parent_getattr (tail_of name) with
    | Some v => Ok v
    | None => Raise (AttributeError EmptyString)
    end
  else Raise (AttributeError EmptyString).

(** [boxes.get(name)], for reading a listing. *)
Fixpoint dict_get (boxes : listing) (name : string) : option box_record :=
  match boxes with
  | [] => None
  | (k, v) :: r => if String.eqb k name then Some v else dict_get r name
  end.

(** The store calls for a list of messages, in their order. *)
Definition store_calls (messages : list string) (command flags : string)
  : list call :=
  map (fun message => store_call message command flags) messages.

(** The mailbox the server has selected after a call, given the one it
    had selected before: a select call that the server accepts with the
    status OK changes it, no other call does. *)
Definition select_step (respond : list call -> call -> result (string * payload))
  (history : list call) (c : call) (current : string) : string :=
  match c with
  | select_call m _ =>
      match respond history c with
      | Ok (status, _) => if String.eqb status "OK" then m else current
      | Raise _ => current
      end
  | _ => current
  end.

(** The mailbox selected after the calls [rest] made on top of
    [history]. *)
Fixpoint selected_after (respond : list call -> call -> result (string * payload))
  (history rest : list call) (current : string) : string :=
  match rest with
  | [] => current
  | c :: r =>
      selected_after respond (history ++ [c]) r
        (select_step respond history c current)
  end.

(** The cached mailbox name is the mailbox of the last select call that
    the server accepted, and INBOX before any. *)
Definition cache_consistent (self : Connection) : Prop :=
  mailbox self
  = selected_after (respond (parent self)) [] (calls (parent self)) "INBOX".

(** A computation keeps a property of the connection. *)
Definition keeps {A} (I : Connection -> Prop) (m : M A) : Prop :=
  forall self, I self -> I (snd (m self)).

(** ** A scripted server for examples *)

(** A server that answers every call with the same status and payload. *)
Definition constant_server (status : string) (p : payload)
  : list call -> call -> result (string * payload) :=
  fun _ _ => Ok (status, p).

(** [Connection.__init__] without credentials, on a given server. *)
Definition Connection__init__
  (server : list call -> call -> result (string * payload)) : Connection :=
  {| mailbox := "INBOX"; readonly := false;
     parent := {| respond := server; calls := [] |} |}.

(** [Connection.__init__], once the [IMAP4_SSL] object is built: the
    attributes are set, and the login is made when both a user and a
    password are given; an exception of the login leaves the
    constructor. *)
Definition Connection_new (user password : option string)
  (server : list call -> call -> result (string * payload)) : result Connection :=
  let self := Connection__init__ server in
  match user, password with
  | Some u, Some p =>
      match Connection_login u p self with
      | (Ok _, self') => Ok self'
      | (Raise e, _) => Raise e
      end
  | _, _ => Ok self
  end.

(** A server that accepts the first [n] calls with the payload [p] and
    answers every later one with the status NO. *)
Definition failing_after (n : nat) (p : payload)
  : list call -> call -> result (string * payload) :=
  fun history _ =>
    if Nat.ltb (length history) n then Ok ("OK", p) else Ok ("NO", []).

(** ** Listing lines *)

(** The line of a listing with the given flags, delimiter and name. *)
Definition list_line (flags delimiter name : string) : string :=
  "(" ++ flags ++ ") " ++ Str.q ++ delimiter ++ Str.q ++ " " ++ name.

(** A line has the shape of a listing line when it starts with
    parenthesized flags, a space, a quoted delimiter and a space, all on
    its first line. *)
Definition list_line_shape (line : string) : Prop :=
  exists flags delimiter rest,
    Str.lacks Str.newline flags = true
    /\ Str.lacks Str.newline delimiter = true
    /\ line = list_line flags delimiter rest.

(** An exception carries a string when one of its arguments holds it. *)
Definition carries (e : exn) (s : string) : bool :=
  existsb (Str.occurs s) (exn_args e).

(** The names that the lines of a listing give. *)
Definition names_of (line : string) (name : string) : Prop :=
  exists flags delimiter,
    _parse_list_response line = Ok (flags, delimiter, name).

(** Every method of the three classes keeps a property of the
    connection. *)
Definition every_method_keeps (I : Connection -> Prop) : Prop :=
  (forall user password, keeps I (Connection_login user password))
  /\ (forall args, keeps I (Connection_list args))
  /\ (forall m r, keeps I (Connection_switch m r))
  /\ (forall m r, keeps I (Connection_select m r))
  /\ (forall args charset, keeps I (Connection_search args charset))
  /\ (forall nums args, keeps I (Connection_fetch nums args))
  /\ (forall messages flags command silent,
        keeps I (Connection_store messages flags command silent))
  /\ (forall b args charset, keeps I (MailBox_search b args charset))
  /\ (forall b nums args, keeps I (MailBox_fetch b nums args))
  /\ (forall b messages flags command silent,
        keeps I (MailBox_store b messages flags command silent))
  /\ (forall m args, keeps I (Message_fetch m args))
  /\ (forall m flags command silent,
        keeps I (Message_store m flags command silent)).

(** No literal of the pattern is the line feed. *)
Fixpoint literals_on_a_line (p : Re.pattern) : bool :=
  match p with
  | [] => true
  | Re.Lit c :: p' => negb (Ascii.eqb c Str.newline) && literals_on_a_line p'
  | Re.Group _ _ :: p' => literals_on_a_line p'
  end.

(** ** Readings of the specification, for comparison *)

(** The ASCII white-space characters, which Python's [str.split()] takes
    as separators. *)
Definition is_whitespace (c : ascii) : bool :=
  let n := nat_of_ascii c in
  Nat.eqb n 32 || (Nat.leb 9 n && Nat.leb n 13).

(** Splitting a white-space separated token list into its tokens, as the
    specification words the result of a search: runs of white space
    separate, and no token is empty. *)
Fixpoint split_whitespace (s : string) : list string :=
  match s with
  | EmptyString => []
  | String c r =>
      if is_whitespace c then split_whitespace r
      else
        match r with
        | EmptyString => [String c EmptyString]
        | String c' _ =>
            if is_whitespace c' then String c EmptyString :: split_whitespace r
            else match split_whitespace r with
                 | t :: ts => String c t :: ts
                 | [] => [String c EmptyString]
                 end
        end
  end.

(** Removing exactly one pair of enclosing double quotes, if the string
    has one, as the specification words the treatment of the name. *)
Definition strip_one_pair (s : string) : string :=
  match s with
  | String a r =>
      if Ascii.eqb a Str.dquote && Nat.leb 1 (String.length r)
         && String.eqb (substring (String.length r - 1) 1 r) Str.q
      then substring 0 (String.length r - 1) r
      else s
  | EmptyString => EmptyString
  end.

(** * Properties *)

(** ** The methods on examples *)

(** A listing of one line gives a dict of one mailbox. *)
Example list_one_box :
  fst (Connection_list []
         (Connection__init__
            (constant_server "OK" [list_line EmptyString "/" "INBOX"])))
  = Ok [("INBOX", (EmptyString, "/"))].
Proof. reflexivity. Qed.

(** Of two lines for one name the later one is kept. *)
Example list_last_line_wins :
  fst (Connection_list []
         (Connection__init__
            (constant_server "OK"
               [list_line "\Noselect" "/" "INBOX";
                list_line EmptyString "." "INBOX"])))
  = Ok [("INBOX", (EmptyString, "."))].
Proof. reflexivity. Qed.

(** A login returns the first element of the payload. *)
Example login_message :
  fst (Connection_login "user" "secret"
         (Connection__init__ (constant_server "OK" ["user authenticated"])))
  = Ok "user authenticated".
Proof. reflexivity. Qed.

(** [Connection.select] hands out a mailbox after one select call. *)
Example select_INBOX :
  let '(r, self) :=
    Connection_select "INBOX" true (Connection__init__ (constant_server "OK" [])) in
  r = Ok {| _mailbox := "INBOX"; _readonly := true |}
  /\ calls (parent self) = [select_call "INBOX" true].
Proof. simpl. split; reflexivity. Qed.

(** ** The status check *)

Lemma _ok_other (status : string) :
  status <> "OK" -> _ok status = Raise (BadReturnStatus ("status was " ++ status)).
Proof.
  intros H. unfold _ok.
  destruct (String.eqb_spec status "OK") as [E | _]; [contradiction | reflexivity].
Qed.

Lemma _ok_inv (status : string) : _ok status = Ok tt -> status = "OK".
Proof.
  unfold _ok. destruct (String.eqb_spec status "OK"); [auto | discriminate].
Qed.

(** C7: [_ok] returns without an error exactly on the status OK, and on
    every other status, the empty one included, raises [BadReturnStatus]
    with a message that ends in the status it was given. *)
Theorem ensureOk_contract :
  _ok "OK" = Ok tt
  /\ _ok EmptyString = Raise (BadReturnStatus "status was ")
  /\ (forall status, _ok status = Ok tt -> status = "OK")
  /\ (forall status, status <> "OK" ->
        _ok status = Raise (BadReturnStatus ("status was " ++ status))).
Proof.
  repeat split.
  - exact _ok_inv.
  - exact _ok_other.
Qed.

Lemma ensureOk_contract_witness :
  "NO" <> "OK" /\ _ok "NO" = Raise (BadReturnStatus "status was NO").
Proof.
  split; [discriminate |].
  destruct ensureOk_contract as (_ & _ & _ & H).
  apply (H "NO"). discriminate.
Defined.

(** ** Effects of the methods on the connection *)

Lemma quiet_ret {A} (a : A) : quiet (ret a).
Proof. intros self. repeat split. Qed.

Lemma quiet_raise {A} (e : exn) : quiet (@raise A e).
Proof. intros self. repeat split. Qed.

Lemma quiet_lift {A} (r : result A) : quiet (lift r).
Proof. intros self. repeat split. Qed.

Lemma quiet_get_mailbox : quiet get_mailbox.
Proof. intros self. repeat split. Qed.

Lemma quiet_bind {A B} (m : M A) (f : A -> M B) :
  quiet m -> (forall a, quiet (f a)) -> quiet (bind m f).
Proof.
  intros Hm Hf self. unfold bind.
  destruct (Hm self) as (H1 & H2 & H3).
  destruct (m self) as [[a | e] self']; simpl in *.
  - destruct (Hf a self') as (K1 & K2 & K3).
    unfold unchanged_selection. rewrite K1, K2, K3. auto.
  - repeat split; assumption.
Qed.

Lemma select_count_snoc (self : Connection) (c : call) :
  select_count (snd (transport c self))
  = (if is_select c then 1 else 0) + select_count self.
Proof.
  unfold select_count, transport; simpl.
  rewrite filter_app, length_app; simpl.
  destruct (is_select c); simpl; lia.
Qed.

Lemma quiet_transport (c : call) : is_select c = false -> quiet (transport c).
Proof.
  intros Hc self. unfold unchanged_selection.
  rewrite select_count_snoc, Hc. simpl. auto.
Qed.

Ltac quiet_steps :=
  repeat (first
    [ apply quiet_ret | apply quiet_raise | apply quiet_lift
    | apply quiet_get_mailbox
    | apply quiet_transport; reflexivity
    | apply quiet_bind; [| intros [? ?] ]
    | apply quiet_bind; [| intros ? ] ]).

Lemma quiet_Connection_search args charset : quiet (Connection_search args charset).
Proof.
  unfold Connection_search. quiet_steps.
  destruct (String.eqb _ _); quiet_steps.
Qed.

Lemma quiet_Connection_fetch nums args : quiet (Connection_fetch nums args).
Proof. unfold Connection_fetch. quiet_steps. Qed.

Lemma quiet_store_loop messages command flags acc :
  quiet (store_loop messages command flags acc).
Proof.
  revert acc. induction messages as [| message rest IH]; intros acc; simpl.
  - apply quiet_ret.
  - quiet_steps. apply IH.
Qed.

Lemma quiet_Connection_store messages flags command silent :
  quiet (Connection_store messages flags command silent).
Proof. unfold Connection_store. apply quiet_store_loop. Qed.

(** What [Connection.switch] does, by the answer of the server. *)
Lemma Connection_switch_OK (m : string) (r : bool) (self : Connection) (p : payload) :
  respond (parent self) (calls (parent self)) (select_call m r) = Ok ("OK", p) ->
  Connection_switch m r self
  = (Ok tt,
     {| mailbox := m; readonly := readonly self;
        parent := {| respond := respond (parent self);
                     calls := calls (parent self) ++ [select_call m r] |} |}).
Proof.
  intros H. unfold Connection_switch, bind, transport. rewrite H. reflexivity.
Qed.

Lemma Connection_switch_not_OK (m : string) (r : bool) (self : Connection)
  (status : string) (p : payload) :
  respond (parent self) (calls (parent self)) (select_call m r) = Ok (status, p) ->
  status <> "OK" ->
  Connection_switch m r self
  = (Raise (BadReturnStatus ("status was " ++ status)),
     {| mailbox := mailbox self; readonly := readonly self;
        parent := {| respond := respond (parent self);
                     calls := calls (parent self) ++ [select_call m r] |} |}).
Proof.
  intros H Hs. unfold Connection_switch, bind, transport. rewrite H.
  unfold lift. rewrite (_ok_other _ Hs). reflexivity.
Qed.

(** [Connection.switch] makes one select call, whatever the server answers,
    and never changes the cached read-only flag. *)
Lemma Connection_switch_effect (m : string) (r : bool) (self : Connection) :
  select_count (snd (Connection_switch m r self)) = S (select_count self)
  /\ readonly (snd (Connection_switch m r self)) = readonly self
  /\ (mailbox (snd (Connection_switch m r self)) = m
      \/ mailbox (snd (Connection_switch m r self)) = mailbox self).
Proof.
  pose proof (select_count_snoc self (select_call m r)) as Hc.
  unfold Connection_switch, bind. unfold transport in *. simpl in Hc.
  destruct (respond _ _ _) as [[status p] | e]; simpl.
  - unfold lift. destruct (_ok status) as [[] | e]; simpl; auto.
  - auto.
Qed.

(** [MailBox._select] compares names only. *)
Lemma MailBox__select_same (b : MailBox) (self : Connection) :
  _mailbox b = mailbox self -> MailBox__select b self = (Ok tt, self).
Proof.
  intros H. unfold MailBox__select, bind, get_mailbox.
  rewrite <- H, String.eqb_refl. reflexivity.
Qed.

Lemma MailBox__select_other (b : MailBox) (self : Connection) :
  _mailbox b <> mailbox self ->
  MailBox__select b self = Connection_switch (_mailbox b) (_readonly b) self.
Proof.
  intros H. unfold MailBox__select, bind, get_mailbox.
  destruct (String.eqb_spec (mailbox self) (_mailbox b)) as [E | _].
  - symmetry in E. contradiction.
  - reflexivity.
Qed.

(** A step that returns without touching the state, followed by a quiet
    rest, is quiet at that state. *)
Lemma unchanged_after_skip {A B} (m : M A) (f : A -> M B) (a : A) (self : Connection) :
  m self = (Ok a, self) -> quiet (f a) ->
  unchanged_selection self (snd (bind m f self)).
Proof.
  intros Hm Hf. unfold bind. rewrite Hm. apply Hf.
Qed.

(** A step that makes [n] select calls, followed by a quiet rest, makes
    [n] select calls. *)
Lemma select_count_bind {A B} (m : M A) (f : A -> M B) (n : nat) (self : Connection) :
  select_count (snd (m self)) = n + select_count self ->
  (forall a, quiet (f a)) ->
  select_count (snd (bind m f self)) = n + select_count self.
Proof.
  intros Hm Hf. unfold bind.
  destruct (m self) as [[a | e] self']; simpl in *.
  - destruct (Hf a self') as (_ & _ & K). rewrite K. exact Hm.
  - exact Hm.
Qed.

Lemma quiet_search_rest (b : MailBox) args charset :
  quiet (found <- Connection_search args charset ;;
         ret (map (fun message => {| as_MailBox := b; num := message |}) found)).
Proof.
  apply quiet_bind; [apply quiet_Connection_search | intros; apply quiet_ret].
Qed.

(** ** Selection *)

(** C1 (the code falls short of it): on a connection whose cached
    read-only flag is false, a switch to the mailbox Archive with the
    read-only flag set, accepted by the server with the status OK, records
    the name Archive and leaves the cached flag false: the flag asked for
    is not recorded. *)
Theorem switch_keeps_old_readonly :
  let self := Connection__init__ (constant_server "OK" []) in
  let '(r, self') := Connection_switch "Archive" true self in
  r = Ok tt
  /\ mailbox self' = "Archive"
  /\ readonly self' = false
  /\ calls (parent self') = [select_call "Archive" true].
Proof. simpl. repeat split. Qed.

(** C9: when the server answers the select call of [Connection.switch]
    with a status other than OK, the switch raises [BadReturnStatus] for
    that status and the cached mailbox name and read-only flag are what
    they were. *)
Theorem failed_switch_keeps_cache (m : string) (r : bool) (self : Connection)
  (status : string) (p : payload) :
  respond (parent self) (calls (parent self)) (select_call m r) = Ok (status, p) ->
  status <> "OK" ->
  fst (Connection_switch m r self)
    = Raise (BadReturnStatus ("status was " ++ status))
  /\ mailbox (snd (Connection_switch m r self)) = mailbox self
  /\ readonly (snd (Connection_switch m r self)) = readonly self.
Proof.
  intros H Hs. rewrite (Connection_switch_not_OK _ _ _ _ _ H Hs). simpl. auto.
Qed.

Lemma failed_switch_keeps_cache_witness :
  let self := Connection__init__ (constant_server "NO" []) in
  fst (Connection_switch "Archive" true self)
    = Raise (BadReturnStatus "status was NO")
  /\ mailbox (snd (Connection_switch "Archive" true self)) = "INBOX"
  /\ readonly (snd (Connection_switch "Archive" true self)) = false.
Proof.
  apply (failed_switch_keeps_cache "Archive" true
           (Connection__init__ (constant_server "NO" [])) "NO" []).
  - reflexivity.
  - discriminate.
Defined.

(** C3: on a connection whose cached mailbox is the name of the first of
    two mailboxes with different names, a search on the second makes
    exactly one more select call, and a search on the first makes none. *)
Theorem search_selects_on_name_mismatch (b1 b2 : MailBox) (self : Connection)
  (args : list string) (charset : option string) :
  _mailbox b1 <> _mailbox b2 ->
  mailbox self = _mailbox b1 ->
  select_count (snd (MailBox_search b2 args charset self)) = 1 + select_count self
  /\ select_count (snd (MailBox_search b1 args charset self)) = 0 + select_count self.
Proof.
  intros Hne Hcur. split.
  - unfold MailBox_search. apply select_count_bind.
    + rewrite MailBox__select_other by congruence.
      apply Connection_switch_effect.
    + intros _. apply quiet_search_rest.
  - unfold MailBox_search. apply select_count_bind.
    + rewrite MailBox__select_same by congruence. reflexivity.
    + intros _. apply quiet_search_rest.
Qed.

Lemma search_selects_on_name_mismatch_witness :
  let self := Connection__init__ (constant_server "OK" ["1 2 3"]) in
  let b1 := {| _mailbox := "INBOX"; _readonly := false |} in
  let b2 := {| _mailbox := "Archive"; _readonly := true |} in
  select_count (snd (MailBox_search b2 ["ALL"] None self)) = 1 + select_count self
  /\ select_count (snd (MailBox_search b1 ["ALL"] None self)) = 0 + select_count self.
Proof.
  apply (search_selects_on_name_mismatch
           {| _mailbox := "INBOX"; _readonly := false |}
           {| _mailbox := "Archive"; _readonly := true |}
           (Connection__init__ (constant_server "OK" ["1 2 3"]))
           ["ALL"] None).
  - discriminate.
  - reflexivity.
Defined.

(** C10: for a mailbox whose name is the cached one and whose read-only
    flag differs from the cached flag, search, fetch and store make no
    select call and leave the cached name and flag as they were. *)
Theorem name_match_ignores_readonly (b : MailBox) (self : Connection) :
  _mailbox b = mailbox self ->
  _readonly b <> readonly self ->
  (forall args charset,
      unchanged_selection self (snd (MailBox_search b args charset self)))
  /\ (forall nums args,
      unchanged_selection self (snd (MailBox_fetch b nums args self)))
  /\ (forall messages flags command silent,
      unchanged_selection self
        (snd (MailBox_store b messages flags command silent self))).
Proof.
  intros Hname _. split; [| split]; intros.
  - unfold MailBox_search.
    apply (unchanged_after_skip _ _ tt); [now apply MailBox__select_same |].
    apply quiet_search_rest.
  - unfold MailBox_fetch.
    apply (unchanged_after_skip _ _ tt); [now apply MailBox__select_same |].
    apply quiet_Connection_fetch.
  - unfold MailBox_store. destruct (_readonly b).
    + apply quiet_raise.
    + apply (unchanged_after_skip _ _ tt); [now apply MailBox__select_same |].
      apply quiet_Connection_store.
Qed.

Lemma name_match_ignores_readonly_witness :
  let self := Connection__init__ (constant_server "OK" ["1 2 3"]) in
  let b := {| _mailbox := "INBOX"; _readonly := true |} in
  (forall args charset,
      unchanged_selection self (snd (MailBox_search b args charset self)))
  /\ (forall nums args,
      unchanged_selection self (snd (MailBox_fetch b nums args self)))
  /\ (forall messages flags command silent,
      unchanged_selection self
        (snd (MailBox_store b messages flags command silent self))).
Proof.
  apply (name_match_ignores_readonly
           {| _mailbox := "INBOX"; _readonly := true |}
           (Connection__init__ (constant_server "OK" ["1 2 3"]))).
  - reflexivity.
  - discriminate.
Defined.

(** ** Read-only handles *)

(** C4: the store of a mailbox, or of a message, built with the read-only
    flag set raises [ReadOnlyException] and returns the connection exactly
    as it found it: no call has reached the transport and nothing has
    changed. *)
Theorem readonly_store_refused (b : MailBox) :
  _readonly b = true ->
  (forall messages flags command silent self,
      MailBox_store b messages flags command silent self
      = (Raise ReadOnlyException, self))
  /\ (forall n flags command silent self,
      Message_store {| as_MailBox := b; num := n |} flags command silent self
      = (Raise ReadOnlyException, self)).
Proof.
  intros Hro.
  assert (H : forall messages flags command silent self,
             MailBox_store b messages flags command silent self
             = (Raise ReadOnlyException, self)).
  { intros. unfold MailBox_store. rewrite Hro. reflexivity. }
  split; [exact H |].
  intros. unfold Message_store, bind. simpl. rewrite H. reflexivity.
Qed.

Lemma readonly_store_refused_witness :
  let b := {| _mailbox := "INBOX"; _readonly := true |} in
  (forall messages flags command silent self,
      MailBox_store b messages flags command silent self
      = (Raise ReadOnlyException, self))
  /\ (forall n flags command silent self,
      Message_store {| as_MailBox := b; num := n |} flags command silent self
      = (Raise ReadOnlyException, self)).
Proof.
  apply (readonly_store_refused {| _mailbox := "INBOX"; _readonly := true |}).
  reflexivity.
Defined.

(** ** Storing flags *)

Lemma store_loop_length messages command flags :
  forall acc self l self',
    store_loop messages command flags acc self = (Ok l, self') ->
    length l = length acc + length messages.
Proof.
  induction messages as [| message rest IH]; intros acc self l self' H; simpl in *.
  - unfold ret in H. inversion H; subst. lia.
  - unfold bind in H at 1. unfold transport in H.
    destruct (respond _ _ _) as [[status p] | e]; [| discriminate].
    unfold bind in H at 1. unfold lift in H at 1.
    destruct (_ok status) as [[] | e]; [| discriminate].
    apply IH in H. rewrite length_app in H. simpl in H. lia.
Qed.

Lemma same_server_select (b : MailBox) (self : Connection) :
  same_server self (snd (MailBox__select b self)).
Proof.
  unfold same_server, MailBox__select, bind, get_mailbox.
  destruct (negb _); [| reflexivity].
  unfold Connection_switch, bind, transport.
  destruct (respond _ _ _) as [[status p] | e]; [| reflexivity].
  unfold lift. destruct (_ok status) as [[] | e]; reflexivity.
Qed.

Lemma store_loop_one message command flags self l self' :
  store_loop [message] command flags [] self = (Ok l, self') ->
  respond (parent self) (calls (parent self)) (store_call message command flags)
  = Ok ("OK", nth 0 l []).
Proof.
  simpl. unfold bind, transport.
  destruct (respond _ _ _) as [[status p] | e]; [| discriminate].
  unfold lift. destruct (_ok status) as [[] | e] eqn:E; [| discriminate].
  apply _ok_inv in E. subst status.
  unfold ret. intros H. inversion H; subst. reflexivity.
Qed.

(** C8: when the store of the mailbox on the one-element list of the
    message's number succeeds, its result has exactly one element, the
    flag result the server gave for that number, and [Message.store]
    returns that element itself and leaves the same state. *)
Theorem message_store_unwraps (m : Message) (flags command : string)
  (silent : bool) (self self' : Connection) (l : list payload) :
  MailBox_store (as_MailBox m) [num m] flags command silent self = (Ok l, self') ->
  exists new_flags,
    l = [new_flags]
    /\ Message_store m flags command silent self = (Ok new_flags, self')
    /\ exists before,
         respond (parent self) before
           (store_call (num m) (store_command command silent) flags)
         = Ok ("OK", new_flags).
Proof.
  intros H.
  assert (Hm : Message_store m flags command silent self
               = lift (index0 l) self').
  { unfold Message_store, bind. rewrite H. reflexivity. }
  unfold MailBox_store in H.
  destruct (_readonly (as_MailBox m)); [discriminate |].
  unfold bind in H.
  pose proof (same_server_select (as_MailBox m) self) as Hsrv.
  destruct (MailBox__select (as_MailBox m) self) as [[[] | e] s1];
    [| discriminate].
  simpl in Hsrv. unfold Connection_store in H.
  fold (store_command command silent) in H.
  pose proof (store_loop_length _ _ _ _ _ _ _ H) as Hlen.
  pose proof (store_loop_one _ _ _ _ _ _ H) as Hone.
  destruct l as [| new_flags [| ? ?]]; simpl in Hlen; try lia.
  exists new_flags. repeat split.
  - exact Hm.
  - exists (calls (parent s1)). rewrite <- Hsrv. exact Hone.
Qed.

Lemma message_store_unwraps_witness :
  let self := Connection__init__ (constant_server "OK" ["12 (FLAGS (\Seen))"]) in
  let m := {| as_MailBox := {| _mailbox := "INBOX"; _readonly := false |};
              num := "12" |} in
  exists new_flags,
    [["12 (FLAGS (\Seen))"]] = [new_flags]
    /\ Message_store m "\Seen" "+" false self
       = (Ok new_flags, snd (MailBox_store (as_MailBox m) ["12"] "\Seen" "+" false self))
    /\ exists before,
         respond (parent self) before
           (store_call "12" (store_command "+" false) "\Seen")
         = Ok ("OK", new_flags).
Proof.
  apply (message_store_unwraps
           {| as_MailBox := {| _mailbox := "INBOX"; _readonly := false |};
              num := "12" |}
           "\Seen" "+" false
           (Connection__init__ (constant_server "OK" ["12 (FLAGS (\Seen))"]))).
  reflexivity.
Defined.

(** ** Searching *)

Lemma split_lacks (sep : ascii) (t : string) :
  Str.lacks sep t = true -> Str.split sep t = [t].
Proof.
  induction t as [| c t IH]; simpl; intros H; [reflexivity |].
  apply andb_prop in H. destruct H as [Hc Ht].
  apply negb_true_iff in Hc. rewrite Hc, (IH Ht). reflexivity.
Qed.

Lemma split_app (sep : ascii) (t r : string) :
  Str.lacks sep t = true ->
  Str.split sep (t ++ String sep r) = t :: Str.split sep r.
Proof.
  induction t as [| c t IH]; simpl; intros H.
  - rewrite Ascii.eqb_refl. reflexivity.
  - apply andb_prop in H. destruct H as [Hc Ht].
    apply negb_true_iff in Hc. rewrite Hc, (IH Ht). reflexivity.
Qed.

(** Cutting at the separator undoes joining with it, for pieces that do
    not hold the separator. *)
Lemma split_join (sep : ascii) (toks : list string) :
  toks <> [] ->
  Forall (fun t => Str.lacks sep t = true) toks ->
  Str.split sep (Str.join (String sep EmptyString) toks) = toks.
Proof.
  induction toks as [| x r IH]; intros Hne Hall; [contradiction |].
  inversion Hall as [| ? ? Hx Hr]; subst.
  destruct r as [| y r'].
  - simpl. apply split_lacks, Hx.
  - change (Str.join (String sep EmptyString) (x :: y :: r'))
      with (x ++ String sep (Str.join (String sep EmptyString) (y :: r'))).
    rewrite (split_app _ _ _ Hx), IH; [reflexivity | discriminate | exact Hr].
Qed.

Lemma join_nonempty (sep : string) (toks : list string) :
  toks <> [] -> Forall (fun t => t <> EmptyString) toks ->
  Str.join sep toks <> EmptyString.
Proof.
  destruct toks as [| x r]; intros Hne Hall; [contradiction |].
  inversion Hall as [| ? ? Hx _]; subst.
  destruct x as [| c x]; [contradiction |].
  destruct r; simpl; discriminate.
Qed.

Lemma Connection_search_OK args charset self r0 rest :
  respond (parent self) (calls (parent self)) (search_call charset args)
  = Ok ("OK", r0 :: rest) ->
  fst (Connection_search args charset self)
  = Ok (if String.eqb r0 EmptyString then [] else Str.split Str.space r0).
Proof.
  intros H. unfold Connection_search, bind, transport. rewrite H. simpl.
  destruct (String.eqb r0 EmptyString); reflexivity.
Qed.

(** C6, as the code has it: with a search payload, accepted with the
    status OK, whose first element is empty, [Connection.search] returns
    the empty list; otherwise it cuts the first element at every single
    space, so that non-empty tokens free of spaces and joined by single
    spaces come back one by one in their order, as 1, 2, 3 from the
    payload holding 1 2 3. *)
Theorem search_cuts_at_single_spaces (args : list string)
  (charset : option string) (self : Connection) (r0 : string) (rest : payload) :
  respond (parent self) (calls (parent self)) (search_call charset args)
  = Ok ("OK", r0 :: rest) ->
  (r0 = EmptyString -> fst (Connection_search args charset self) = Ok [])
  /\ (r0 <> EmptyString ->
      fst (Connection_search args charset self) = Ok (Str.split Str.space r0))
  /\ (forall toks,
        toks <> [] ->
        Forall (fun t => t <> EmptyString) toks ->
        Forall (fun t => Str.lacks Str.space t = true) toks ->
        r0 = Str.join " " toks ->
        fst (Connection_search args charset self) = Ok toks)
  /\ (r0 = "1 2 3" ->
      fst (Connection_search args charset self) = Ok ["1"; "2"; "3"]).
Proof.
  intros H. rewrite (Connection_search_OK _ _ _ _ _ H).
  split; [| split; [| split]].
  - intros ->. reflexivity.
  - intros Hne. destruct (String.eqb_spec r0 EmptyString); [contradiction | reflexivity].
  - intros toks Hne Hfull Hfree ->.
    pose proof (join_nonempty " " toks Hne Hfull) as Hj.
    destruct (String.eqb_spec (Str.join " " toks) EmptyString); [contradiction |].
    f_equal. apply (split_join Str.space); assumption.
  - intros ->. reflexivity.
Qed.

Lemma search_cuts_at_single_spaces_witness :
  let self := Connection__init__ (constant_server "OK" ["1 2 3"]) in
  fst (Connection_search ["ALL"] None self) = Ok ["1"; "2"; "3"].
Proof.
  refine (proj2 (proj2 (proj2
    (search_cuts_at_single_spaces ["ALL"] None
       (Connection__init__ (constant_server "OK" ["1 2 3"])) "1 2 3" []
       eq_refl))) eq_refl).
Defined.

(** C6 as worded fails: on the payload whose first element is 1, two
    spaces, 2, the white-space separated tokens are 1 and 2, and
    [Connection.search] returns 1, the empty string and 2. *)
Lemma search_keeps_empty_pieces :
  let self := Connection__init__ (constant_server "OK" ["1  2"]) in
  fst (Connection_search ["ALL"] None self) = Ok ["1"; EmptyString; "2"]
  /\ split_whitespace "1  2" = ["1"; "2"]
  /\ fst (Connection_search ["ALL"] None self) <> Ok (split_whitespace "1  2").
Proof.
  simpl. repeat split. discriminate.
Qed.

(** ** The pattern matcher *)

Lemma lacks_app (c : ascii) (a b : string) :
  Str.lacks c (a ++ b) = Str.lacks c a && Str.lacks c b.
Proof.
  induction a as [| x a IH]; simpl; [reflexivity |].
  rewrite IH, andb_assoc. reflexivity.
Qed.

Lemma append_empty_r (s : string) : s ++ EmptyString = s.
Proof. induction s as [| c s IH]; simpl; [| rewrite IH]; reflexivity. Qed.

Section Star.

Context {G : Type} (k : string -> option G).

(** What either star captures is a run of dot characters after which the
    continuation succeeded. *)
Lemma star_greedy_sound (s cap : string) (g : G) :
  Re.star_greedy k s = Some (cap, g) ->
  exists tl, s = cap ++ tl /\ Str.lacks Str.newline cap = true /\ k tl = Some g.
Proof.
  revert cap. induction s as [| c r IH]; intros cap H; simpl in H.
  - destruct (k EmptyString) as [g' |] eqn:E; [| discriminate].
    inversion H; subst. exists EmptyString. auto.
  - destruct (if Re.dot c then Re.star_greedy k r else None)
      as [[cap' g'] |] eqn:E.
    + inversion H; subst. destruct (Re.dot c) eqn:Hd; [| discriminate].
      destruct (IH _ E) as (tl & -> & Hl & Hk).
      exists tl. simpl. fold (Re.dot c). rewrite Hd, Hl. auto.
    + destruct (k (String c r)) as [g' |] eqn:Ek; [| discriminate].
      inversion H; subst. exists (String c r). auto.
Qed.

Lemma star_lazy_sound (s cap : string) (g : G) :
  Re.star_lazy k s = Some (cap, g) ->
  exists tl, s = cap ++ tl /\ Str.lacks Str.newline cap = true /\ k tl = Some g.
Proof.
  revert cap. induction s as [| c r IH]; intros cap H; simpl in H.
  - destruct (k EmptyString) as [g' |] eqn:E; [| discriminate].
    inversion H; subst. exists EmptyString. auto.
  - destruct (k (String c r)) as [g' |] eqn:Ek.
    + inversion H; subst. exists (String c r). auto.
    + destruct (Re.dot c) eqn:Hd; [| discriminate].
      destruct (Re.star_lazy k r) as [[cap' g'] |]; [| discriminate].
      inversion H; subst.
      destruct (IH _ eq_refl) as (tl & -> & Hl & Hk).
      exists tl. simpl. fold (Re.dot c). rewrite Hd, Hl. auto.
Qed.

(** Either star succeeds as soon as the continuation succeeds after
    some run of dot characters. *)
Lemma star_greedy_here (s : string) (g : G) :
  k s = Some g -> exists cap g', Re.star_greedy k s = Some (cap, g').
Proof.
  intros H. destruct s as [| c r]; simpl.
  - rewrite H. simpl. eauto.
  - destruct (if Re.dot c then Re.star_greedy k r else None) as [[cap' g'] |].
    + eauto.
    + rewrite H. simpl. eauto.
Qed.

Lemma star_greedy_complete (cap tl : string) (g : G) :
  Str.lacks Str.newline cap = true -> k tl = Some g ->
  exists cap' g', Re.star_greedy k (cap ++ tl) = Some (cap', g').
Proof.
  induction cap as [| c cap IH]; intros Hl Hk; simpl.
  - eapply star_greedy_here, Hk.
  - simpl in Hl. apply andb_prop in Hl. destruct Hl as [Hd Hl].
    fold (Re.dot c) in Hd. rewrite Hd.
    destruct (IH Hl Hk) as (cap' & g' & ->). eauto.
Qed.

Lemma star_lazy_here (s : string) (g : G) :
  k s = Some g -> Re.star_lazy k s = Some (EmptyString, g).
Proof.
  intros H. destruct s as [| c r]; simpl; rewrite H; reflexivity.
Qed.

Lemma star_lazy_complete (cap tl : string) (g : G) :
  Str.lacks Str.newline cap = true -> k tl = Some g ->
  exists cap' g', Re.star_lazy k (cap ++ tl) = Some (cap', g').
Proof.
  induction cap as [| c cap IH]; intros Hl Hk; simpl.
  - rewrite (star_lazy_here _ _ Hk). eauto.
  - destruct (k (String c (cap ++ tl))); [eauto |].
    simpl in Hl. apply andb_prop in Hl. destruct Hl as [Hd Hl].
    fold (Re.dot c) in Hd. rewrite Hd.
    destruct (IH Hl Hk) as (cap' & g' & ->). eauto.
Qed.

(** The lazy star captures [cap] when the continuation succeeds after it
    and at no earlier point. *)
Lemma star_lazy_exact (cap tl : string) (g : G) :
  Str.lacks Str.newline cap = true -> k tl = Some g ->
  (forall a c b, cap = a ++ String c b -> k (String c b ++ tl) = None) ->
  Re.star_lazy k (cap ++ tl) = Some (cap, g).
Proof.
  induction cap as [| c cap IH]; intros Hl Hk Hearly; simpl.
  - apply star_lazy_here, Hk.
  - rewrite (Hearly EmptyString c cap eq_refl : k (String c (cap ++ tl)) = None).
    simpl in Hl. apply andb_prop in Hl. destruct Hl as [Hd Hl].
    fold (Re.dot c) in Hd. rewrite Hd, IH; auto.
    intros a c' b ->. apply (Hearly (String c a) c' b). reflexivity.
Qed.

(** The greedy star captures [cap] when the continuation succeeds after
    it and at no later point of the same line. *)
Lemma star_greedy_exact (cap tl : string) (g : G) :
  Str.lacks Str.newline cap = true -> k tl = Some g ->
  (forall a c b, tl = String c a ++ b ->
                 Str.lacks Str.newline (String c a) = true -> k b = None) ->
  Re.star_greedy k (cap ++ tl) = Some (cap, g).
Proof.
  induction cap as [| c cap IH]; intros Hl Hk Hlate; simpl.
  - destruct (Re.star_greedy k tl) as [[cap' g'] |] eqn:E.
    + destruct (star_greedy_sound _ _ _ E) as (tl' & Htl & Hl' & Hk').
      destruct cap' as [| c' cap'].
      * simpl in Htl. subst tl'. congruence.
      * rewrite (Hlate cap' c' tl' Htl Hl') in Hk'. discriminate.
    + destruct (star_greedy_here _ _ Hk) as (? & ? & E'). congruence.
  - simpl in Hl. apply andb_prop in Hl. destruct Hl as [Hd Hl].
    fold (Re.dot c) in Hd. rewrite Hd, IH; auto.
Qed.

End Star.

(** Matching one item of a pattern. *)
Lemma run_Lit_inv (c : ascii) (p : Re.pattern) (s : string) (gs : list string) :
  Re.run (Re.Lit c :: p) s = Some gs ->
  exists r, s = String c r /\ Re.run p r = Some gs.
Proof.
  simpl. destruct s as [| a r]; [discriminate |].
  destruct (Ascii.eqb_spec a c); [subst; eauto | discriminate].
Qed.

Lemma run_Lit_same (c : ascii) (p : Re.pattern) (r : string) :
  Re.run (Re.Lit c :: p) (String c r) = Re.run p r.
Proof. simpl. rewrite Ascii.eqb_refl. reflexivity. Qed.

Lemma run_Group_inv (name : string) (greedy : bool) (p : Re.pattern)
  (s : string) (gs : list string) :
  Re.run (Re.Group name greedy :: p) s = Some gs ->
  exists cap gs' tl,
    gs = cap :: gs' /\ s = cap ++ tl
    /\ Str.lacks Str.newline cap = true /\ Re.run p tl = Some gs'.
Proof.
  simpl. destruct greedy.
  - destruct (Re.star_greedy (Re.run p) s) as [[cap gs'] |] eqn:E; [| discriminate].
    intros H. inversion H; subst.
    destruct (star_greedy_sound _ _ _ _ E) as (tl & ? & ? & ?).
    exists cap, gs', tl. auto.
  - destruct (Re.star_lazy (Re.run p) s) as [[cap gs'] |] eqn:E; [| discriminate].
    intros H. inversion H; subst.
    destruct (star_lazy_sound _ _ _ _ E) as (tl & ? & ? & ?).
    exists cap, gs', tl. auto.
Qed.

Lemma run_Group_complete (name : string) (greedy : bool) (p : Re.pattern)
  (cap tl : string) (gs : list string) :
  Str.lacks Str.newline cap = true -> Re.run p tl = Some gs ->
  exists gs', Re.run (Re.Group name greedy :: p) (cap ++ tl) = Some gs'.
Proof.
  intros Hl Hk. simpl. destruct greedy.
  - destruct (star_greedy_complete _ _ _ _ Hl Hk) as (cap' & g' & ->). eauto.
  - destruct (star_lazy_complete _ _ _ _ Hl Hk) as (cap' & g' & ->). eauto.
Qed.

Lemma run_Group_greedy (name : string) (p : Re.pattern) (s : string) :
  Re.run (Re.Group name true :: p) s
  = match Re.star_greedy (Re.run p) s with
    | Some (cap, gs) => Some (cap :: gs)
    | None => None
    end.
Proof. reflexivity. Qed.

Lemma run_Group_lazy (name : string) (p : Re.pattern) (s : string) :
  Re.run (Re.Group name false :: p) s
  = match Re.star_lazy (Re.run p) s with
    | Some (cap, gs) => Some (cap :: gs)
    | None => None
    end.
Proof. reflexivity. Qed.

(** The last group takes the rest of the line. *)
Lemma run_last_group (name : string) (n : string) :
  Str.lacks Str.newline n = true ->
  Re.run [Re.Group name true] n = Some [n].
Proof.
  intros Hl.
  assert (H : Re.star_greedy (Re.run []) (n ++ EmptyString) = Some (n, [])).
  { apply star_greedy_exact; auto. intros a c b H. discriminate. }
  rewrite append_empty_r in H.
  rewrite run_Group_greedy, H. reflexivity.
Qed.

(** ** Listing lines *)

Lemma startswith_app (p b : string) : Str.startswith p (p ++ b) = true.
Proof.
  induction p as [| c p IH]; simpl; [reflexivity |].
  rewrite Ascii.eqb_refl, IH. reflexivity.
Qed.

Lemma occurs_here (p s : string) :
  Str.startswith p s = true -> Str.occurs p s = true.
Proof. destruct s; simpl; intros ->; reflexivity. Qed.

Lemma occurs_app (p a b : string) : Str.occurs p (a ++ p ++ b) = true.
Proof.
  induction a as [| c a IH]; simpl.
  - apply occurs_here, startswith_app.
  - rewrite IH. apply orb_true_r.
Qed.

Lemma run_after_delimiter (n : string) :
  Str.lacks Str.newline n = true ->
  Re.run after_delimiter (String Str.dquote (String Str.space n)) = Some [n].
Proof.
  intros H. unfold after_delimiter.
  rewrite !run_Lit_same. apply run_last_group, H.
Qed.

Lemma run_after_delimiter_inv (s : string) (gs : list string) :
  Re.run after_delimiter s = Some gs ->
  exists n tl, s = String Str.dquote (String Str.space (n ++ tl))
               /\ gs = [n] /\ Str.lacks Str.newline n = true.
Proof.
  unfold after_delimiter. intros H.
  apply run_Lit_inv in H. destruct H as (r1 & -> & H).
  apply run_Lit_inv in H. destruct H as (r2 & -> & H).
  apply run_Group_inv in H. destruct H as (n & gs' & tl & -> & -> & Hn & H).
  simpl in H. inversion H; subst. eauto.
Qed.

Lemma run_after_flags (d n : string) :
  Str.lacks Str.newline d = true ->
  Str.lacks Str.newline n = true ->
  Str.occurs (Str.q ++ " ") n = false ->
  Re.run after_flags
    (String ")" (String Str.space (String Str.dquote
       (d ++ String Str.dquote (String Str.space n)))))
  = Some [d; n].
Proof.
  intros Hd Hn Hocc. unfold after_flags. rewrite !run_Lit_same.
  fold after_delimiter. rewrite run_Group_greedy.
  rewrite (star_greedy_exact _ d _ [n]); auto using run_after_delimiter.
  intros a c b E Ha.
  destruct (Re.run after_delimiter b) as [gs |] eqn:Eb; [| reflexivity].
  exfalso.
  apply run_after_delimiter_inv in Eb. destruct Eb as (n' & tl & -> & _ & _).
  simpl in E. inversion E as [[Hc E']]. clear E.
  destruct a as [| c' a]; simpl in E'.
  - inversion E'.
  - inversion E' as [[Hc' E'']].
    rewrite E'' in Hocc.
    change (String Str.dquote (String Str.space (n' ++ tl)))
      with ((Str.q ++ " ") ++ (n' ++ tl)) in Hocc.
    rewrite occurs_app in Hocc. discriminate.
Qed.

(** On a line built from flags without a closing parenthesis, a delimiter
    and a name without a quote followed by a space, none of them holding a
    line feed, the pattern captures exactly the three. *)
Lemma match_list_line (f d n : string) :
  Str.lacks ")" f = true ->
  Str.lacks Str.newline f = true ->
  Str.lacks Str.newline d = true ->
  Str.lacks Str.newline n = true ->
  Str.occurs (Str.q ++ " ") n = false ->
  Re.match_ _list_response_pattern (list_line f d n) = Some [f; d; n].
Proof.
  intros Hp Hf Hd Hn Hocc.
  unfold Re.match_, _list_response_pattern, list_line.
  change ("(" ++ f ++ ") " ++ Str.q ++ d ++ Str.q ++ " " ++ n)
    with (String "(" (f ++ String ")" (String Str.space (String Str.dquote
            (d ++ String Str.dquote (String Str.space n)))))).
  rewrite run_Lit_same. fold after_flags. rewrite run_Group_lazy.
  rewrite (star_lazy_exact _ f _ [d; n]); auto using run_after_flags.
  intros a c b ->.
  rewrite lacks_app in Hp. apply andb_prop in Hp. destruct Hp as [_ Hp].
  simpl in Hp. apply andb_prop in Hp. destruct Hp as [Hc _].
  apply negb_true_iff in Hc.
  unfold after_flags. simpl. rewrite Hc. reflexivity.
Qed.

(** A match of the pattern cuts the line into its three groups. *)
Lemma match_sound (line : string) (gs : list string) :
  Re.match_ _list_response_pattern line = Some gs ->
  exists f d n tl,
    gs = [f; d; n] /\ line = list_line f d (n ++ tl)
    /\ Str.lacks Str.newline f = true
    /\ Str.lacks Str.newline d = true
    /\ Str.lacks Str.newline n = true.
Proof.
  unfold Re.match_, _list_response_pattern. intros H.
  apply run_Lit_inv in H. destruct H as (r0 & -> & H).
  apply run_Group_inv in H. destruct H as (f & gs1 & tl1 & -> & -> & Hf & H).
  apply run_Lit_inv in H. destruct H as (r1 & -> & H).
  apply run_Lit_inv in H. destruct H as (r2 & -> & H).
  apply run_Lit_inv in H. destruct H as (r3 & -> & H).
  apply run_Group_inv in H. destruct H as (d & gs2 & tl2 & -> & -> & Hd & H).
  apply run_after_delimiter_inv in H. destruct H as (n & tl & -> & -> & Hn).
  exists f, d, n, tl. repeat split; assumption.
Qed.

(** The pattern matches every line of the shape. *)
Lemma match_complete (line : string) :
  list_line_shape line ->
  exists gs, Re.match_ _list_response_pattern line = Some gs.
Proof.
  intros (f & d & rest & Hf & Hd & ->).
  unfold Re.match_, _list_response_pattern, list_line.
  change ("(" ++ f ++ ") " ++ Str.q ++ d ++ Str.q ++ " " ++ rest)
    with (String "(" (f ++ String ")" (String Str.space (String Str.dquote
            (d ++ String Str.dquote (String Str.space rest)))))).
  rewrite run_Lit_same.
  assert (H3 : exists gs, Re.run after_delimiter
                            (String Str.dquote (String Str.space rest)) = Some gs).
  { unfold after_delimiter. rewrite !run_Lit_same, run_Group_greedy.
    destruct (star_greedy_here (Re.run []) rest [] eq_refl) as (cap & g & ->).
    eauto. }
  destruct H3 as (gs3 & H3).
  destruct (run_Group_complete "delimiter" true _ _ _ _ Hd H3) as (gs2 & H2).
  assert (H1 : Re.run after_flags
                 (String ")" (String Str.space (String Str.dquote
                    (d ++ String Str.dquote (String Str.space rest)))))
               = Some gs2).
  { unfold after_flags. rewrite !run_Lit_same. exact H2. }
  exact (run_Group_complete "flags" false _ _ _ _ Hf H1).
Qed.

Lemma match_shape (line : string) (gs : list string) :
  Re.match_ _list_response_pattern line = Some gs -> list_line_shape line.
Proof.
  intros H. destruct (match_sound _ _ H) as (f & d & n & tl & _ & -> & Hf & Hd & _).
  exists f, d, (n ++ tl). auto.
Qed.

Lemma _parse_list_response_unshaped (line : string) :
  ~ list_line_shape line -> _parse_list_response line = Raise none_has_no_groups.
Proof.
  intros H. unfold _parse_list_response.
  destruct (Re.match_ _list_response_pattern line) as [gs |] eqn:E; [| reflexivity].
  exfalso. apply H. eapply match_shape, E.
Qed.

Lemma _parse_list_response_shaped (line : string) :
  list_line_shape line ->
  exists f d n tl,
    Re.match_ _list_response_pattern line = Some [f; d; n]
    /\ _parse_list_response line = Ok (f, d, Str.strip Str.dquote n)
    /\ line = list_line f d (n ++ tl)
    /\ Str.lacks Str.newline f = true
    /\ Str.lacks Str.newline d = true
    /\ Str.lacks Str.newline n = true.
Proof.
  intros H. destruct (match_complete _ H) as (gs & E).
  destruct (match_sound _ _ E) as (f & d & n & tl & -> & Hl & Hf & Hd & Hn).
  exists f, d, n, tl. unfold _parse_list_response. rewrite E.
  repeat split; assumption.
Qed.

Lemma _parse_list_response_raises (line : string) (e : exn) :
  _parse_list_response line = Raise e ->
  e = none_has_no_groups /\ ~ list_line_shape line.
Proof.
  intros H. split.
  - unfold _parse_list_response in H.
    destruct (Re.match_ _list_response_pattern line) as [gs |] eqn:E.
    + destruct (match_sound _ _ E) as (f & d & n & tl & -> & _). discriminate.
    + congruence.
  - intros Hs.
    destruct (_parse_list_response_shaped _ Hs) as (f & d & n & tl & _ & E & _).
    congruence.
Qed.

Lemma list_loop_unshaped (boxlist : list string) (line : string) :
  In line boxlist -> ~ list_line_shape line ->
  forall boxes, list_loop boxlist boxes = Raise none_has_no_groups.
Proof.
  intros Hin Hno. induction boxlist as [| box_line rest IH]; [contradiction |].
  intros boxes. simpl.
  destruct (_parse_list_response box_line) as [[[flags delimiter] name] | e] eqn:E.
  - destruct Hin as [-> | Hin].
    + rewrite (_parse_list_response_unshaped _ Hno) in E. discriminate.
    + apply IH, Hin.
  - apply _parse_list_response_raises in E. destruct E as [-> _]. reflexivity.
Qed.

(** C2, as the code has it: on every line that lacks the shape of a
    listing line, [_parse_list_response] returns nothing and raises the
    [AttributeError] of taking the groups of no match; and
    [Connection.list] raises that same exception whenever the listing,
    accepted with the status OK, holds such a line. *)
Theorem unshaped_line_raises_AttributeError :
  (forall line,
      ~ list_line_shape line ->
      _parse_list_response line = Raise none_has_no_groups)
  /\ (forall args self boxlist line,
        respond (parent self) (calls (parent self)) (list_call args)
        = Ok ("OK", boxlist) ->
        In line boxlist ->
        ~ list_line_shape line ->
        fst (Connection_list args self) = Raise none_has_no_groups).
Proof.
  split.
  - exact _parse_list_response_unshaped.
  - intros args self boxlist line H Hin Hno.
    unfold Connection_list, bind, transport. rewrite H. simpl.
    apply (list_loop_unshaped _ _ Hin Hno).
Qed.

Lemma not_shaped_of_no_match (line : string) :
  Re.match_ _list_response_pattern line = None -> ~ list_line_shape line.
Proof.
  intros H Hs. destruct (match_complete _ Hs) as (gs & E). congruence.
Qed.

Lemma unshaped_line_raises_AttributeError_witness :
  let line := "() / INBOX" in
  let self := Connection__init__ (constant_server "OK" [line]) in
  _parse_list_response line = Raise none_has_no_groups
  /\ fst (Connection_list [] self) = Raise none_has_no_groups.
Proof.
  assert (Hno : ~ list_line_shape "() / INBOX")
    by (apply not_shaped_of_no_match; reflexivity).
  split.
  - apply (proj1 unshaped_line_raises_AttributeError "() / INBOX" Hno).
  - apply (proj2 unshaped_line_raises_AttributeError []
             (Connection__init__ (constant_server "OK" ["() / INBOX"]))
             ["() / INBOX"] "() / INBOX").
    + reflexivity.
    + left. reflexivity.
    + exact Hno.
Defined.

(** C2 as worded fails: the line without quotes around its delimiter
    lacks the shape, and the exception raised for it is the built-in
    [AttributeError], whose message does not hold the line. *)
Lemma unshaped_line_error_lacks_the_line :
  let line := "() / INBOX" in
  ~ list_line_shape line
  /\ _parse_list_response line
     = Raise (AttributeError "'NoneType' object has no attribute 'groups'")
  /\ ~ (exists e, _parse_list_response line = Raise e /\ carries e line = true).
Proof.
  simpl. split; [| split].
  - apply not_shaped_of_no_match. reflexivity.
  - reflexivity.
  - intros (e & He & Hc). vm_compute in He. inversion He; subst.
    vm_compute in Hc. discriminate.
Qed.

(** ** Stripping the quotes of the name *)

Lemma lstrip_spec (c : ascii) (s : string) :
  exists a, Str.only c a = true /\ s = a ++ Str.lstrip c s
            /\ Str.first_is c (Str.lstrip c s) = false.
Proof.
  induction s as [| x s (a & Ha & Hs & Hf)]; simpl.
  - exists EmptyString. auto.
  - destruct (Ascii.eqb x c) eqn:E.
    + exists (String x a). simpl. rewrite E, Ha, <- Hs. auto.
    + exists EmptyString. simpl. auto.
Qed.

Lemma rstrip_spec (c : ascii) (s : string) :
  exists b, Str.only c b = true /\ s = Str.rstrip c s ++ b
            /\ Str.last_is c (Str.rstrip c s) = false.
Proof.
  induction s as [| x s (b & Hb & Hs & Hl)]; simpl.
  - exists EmptyString. auto.
  - destruct (Str.rstrip c s) as [| y r] eqn:E.
    + destruct (Ascii.eqb x c) eqn:Ex.
      * exists (String x b). simpl in *. rewrite Ex, Hb, Hs. auto.
      * exists b. simpl in *. rewrite Ex, Hs. auto.
    + exists b. rewrite Hs at 1. simpl. auto.
Qed.

Lemma rstrip_first (c : ascii) (s : string) :
  Str.first_is c s = false -> Str.first_is c (Str.rstrip c s) = false.
Proof.
  destruct s as [| x s]; simpl; [auto |]. intros H.
  destruct (Str.rstrip c s); [rewrite H |]; simpl; auto.
Qed.

(** [strip] removes a run of the character at each end, and what it
    returns neither starts nor ends with the character. *)
Lemma strip_spec (c : ascii) (s : string) :
  exists a b,
    Str.only c a = true /\ Str.only c b = true
    /\ s = a ++ Str.strip c s ++ b
    /\ Str.first_is c (Str.strip c s) = false
    /\ Str.last_is c (Str.strip c s) = false.
Proof.
  destruct (lstrip_spec c s) as (a & Ha & Hs & Hf).
  destruct (rstrip_spec c (Str.lstrip c s)) as (b & Hb & Hs' & Hl).
  exists a, b. unfold Str.strip. repeat split; auto.
  - rewrite <- Hs'. exact Hs.
  - apply rstrip_first, Hf.
Qed.

Lemma lstrip_lacks (c : ascii) (s : string) :
  Str.lacks c s = true -> Str.lstrip c s = s.
Proof.
  destruct s as [| x s]; simpl; [auto |]. intros H.
  apply andb_prop in H. destruct H as [H _].
  apply negb_true_iff in H. rewrite H. reflexivity.
Qed.

Lemma rstrip_lacks (c : ascii) (s : string) :
  Str.lacks c s = true -> Str.rstrip c s = s.
Proof.
  induction s as [| x s IH]; simpl; [auto |]. intros H.
  apply andb_prop in H. destruct H as [Hx Hs].
  apply negb_true_iff in Hx. rewrite (IH Hs), Hx.
  destruct s; reflexivity.
Qed.

Lemma rstrip_snoc (c : ascii) (s : string) :
  Str.rstrip c (s ++ String c EmptyString) = Str.rstrip c s.
Proof.
  induction s as [| x s IH]; simpl.
  - rewrite Ascii.eqb_refl. reflexivity.
  - rewrite IH. reflexivity.
Qed.

Lemma strip_lacks (c : ascii) (s : string) :
  Str.lacks c s = true -> Str.strip c s = s.
Proof.
  intros H. unfold Str.strip. rewrite (lstrip_lacks _ _ H). apply rstrip_lacks, H.
Qed.

Lemma strip_enclosed (c : ascii) (x : string) :
  Str.lacks c x = true ->
  Str.strip c (String c (x ++ String c EmptyString)) = x.
Proof.
  intros H. unfold Str.strip. simpl. rewrite Ascii.eqb_refl.
  destruct x as [| a x].
  - simpl. rewrite Ascii.eqb_refl. reflexivity.
  - assert (Ha : Ascii.eqb a c = false).
    { simpl in H. apply andb_prop in H. destruct H as [H _].
      apply negb_true_iff in H. exact H. }
    change (String a x ++ String c EmptyString)
      with (String a (x ++ String c EmptyString)).
    cbn [Str.lstrip]. rewrite Ha.
    change (String a (x ++ String c EmptyString))
      with (String a x ++ String c EmptyString).
    rewrite rstrip_snoc. apply rstrip_lacks, H.
Qed.

(** C5, as the code has it: on every line of the shape of a listing
    line, [_parse_list_response] returns the three groups the pattern
    captures, the name with every leading and every trailing double quote
    removed; on a line built from flags without a closing parenthesis, a
    delimiter and a name without a quote followed by a space, the groups
    are these flags, delimiter and name. A name enclosed in one pair of
    quotes loses the pair and a name without quotes is kept. The line with
    the flags Seen and Flagged, the delimiter slash and the name INBOX.Sent
    comes back as these three, and empty flags come back as the empty
    string. *)
Theorem parse_list_line_groups :
  (forall line,
      list_line_shape line ->
      exists f d n tl,
        Re.match_ _list_response_pattern line = Some [f; d; n]
        /\ _parse_list_response line = Ok (f, d, Str.strip Str.dquote n)
        /\ line = list_line f d (n ++ tl)
        /\ Str.lacks Str.newline f = true
        /\ Str.lacks Str.newline d = true
        /\ Str.lacks Str.newline n = true)
  /\ (forall f d n,
      Str.lacks ")" f = true ->
      Str.lacks Str.newline f = true ->
      Str.lacks Str.newline d = true ->
      Str.lacks Str.newline n = true ->
      Str.occurs (Str.q ++ " ") n = false ->
      _parse_list_response (list_line f d n)
      = Ok (f, d, Str.strip Str.dquote n))
  /\ (forall n, exists a b,
        Str.only Str.dquote a = true /\ Str.only Str.dquote b = true
        /\ n = a ++ Str.strip Str.dquote n ++ b
        /\ Str.first_is Str.dquote (Str.strip Str.dquote n) = false
        /\ Str.last_is Str.dquote (Str.strip Str.dquote n) = false)
  /\ (forall x, Str.lacks Str.dquote x = true ->
        Str.strip Str.dquote (Str.q ++ x ++ Str.q) = x)
  /\ (forall n, Str.lacks Str.dquote n = true -> Str.strip Str.dquote n = n)
  /\ _parse_list_response (list_line "\Seen \Flagged" "/" "INBOX.Sent")
     = Ok ("\Seen \Flagged", "/", "INBOX.Sent")
  /\ _parse_list_response (list_line EmptyString "." "INBOX")
     = Ok (EmptyString, ".", "INBOX").
Proof.
  split; [| split; [| split; [| split; [| split; [| split]]]]].
  - exact _parse_list_response_shaped.
  - intros f d n Hp Hf Hd Hn Hocc. unfold _parse_list_response.
    rewrite (match_list_line f d n Hp Hf Hd Hn Hocc). reflexivity.
  - intros n. apply strip_spec.
  - intros x Hx. apply (strip_enclosed Str.dquote x Hx).
  - intros n. apply strip_lacks.
  - reflexivity.
  - reflexivity.
Qed.

Lemma parse_list_line_groups_witness :
  _parse_list_response (list_line "\HasNoChildren" "/" (Str.q ++ "My Box" ++ Str.q))
  = Ok ("\HasNoChildren", "/", "My Box").
Proof.
  destruct parse_list_line_groups as (_ & H & _ & Hs & _).
  rewrite (H "\HasNoChildren" "/" (Str.q ++ "My Box" ++ Str.q)
             eq_refl eq_refl eq_refl eq_refl eq_refl).
  rewrite (Hs "My Box" eq_refl). reflexivity.
Defined.

(** C5 as worded fails: the name that stands between two pairs of double
    quotes is captured whole, removing one pair would leave it between
    one pair, and [_parse_list_response] returns it bare. *)
Lemma parse_strips_every_quote :
  let name := Str.q ++ Str.q ++ "x" ++ Str.q ++ Str.q in
  let line := list_line EmptyString "/" name in
  Re.match_ _list_response_pattern line = Some [EmptyString; "/"; name]
  /\ strip_one_pair name = Str.q ++ "x" ++ Str.q
  /\ _parse_list_response line = Ok (EmptyString, "/", "x")
  /\ _parse_list_response line <> Ok (EmptyString, "/", strip_one_pair name).
Proof.
  vm_compute. repeat split. discriminate.
Qed.


(** * Further properties of the module *)

(** ** Tokens of a search *)

Lemma split_nonempty (sep : ascii) (s : string) : Str.split sep s <> [].
Proof.
  destruct s as [| c r]; simpl; [discriminate |].
  destruct (Ascii.eqb c sep); [discriminate |].
  destruct (Str.split sep r); discriminate.
Qed.

Lemma join_cons (sep x : string) (l : list string) :
  l <> [] -> Str.join sep (x :: l) = x ++ sep ++ Str.join sep l.
Proof. destruct l; [contradiction | reflexivity]. Qed.

(** Joining the pieces of a split with the separator gives the string
    back. *)
Lemma join_split (sep : ascii) (s : string) :
  Str.join (String sep EmptyString) (Str.split sep s) = s.
Proof.
  induction s as [| c r IH]; [reflexivity |].
  simpl Str.split. destruct (Ascii.eqb_spec c sep) as [-> | Hc].
  - rewrite join_cons by apply split_nonempty. simpl. rewrite IH. reflexivity.
  - pose proof (split_nonempty sep r) as Hne.
    destruct (Str.split sep r) as [| p ps]; [contradiction |].
    destruct ps as [| p' ps'].
    + simpl in *. rewrite IH. reflexivity.
    + rewrite join_cons by discriminate.
      rewrite join_cons in IH by discriminate.
      simpl. rewrite <- IH. reflexivity.
Qed.

Lemma split_pieces_lack (sep : ascii) (s : string) :
  Forall (fun t => Str.lacks sep t = true) (Str.split sep s).
Proof.
  induction s as [| c r IH]; simpl.
  - constructor; [reflexivity | constructor].
  - destruct (Ascii.eqb c sep) eqn:Hc.
    + constructor; [reflexivity | exact IH].
    + destruct (Str.split sep r) as [| p ps]; simpl.
      * constructor; [simpl; rewrite Hc; reflexivity | constructor].
      * inversion IH; subst. constructor; [| assumption].
        simpl. rewrite Hc. simpl. assumption.
Qed.

(** X1: when the server accepts a search with a payload whose first
    element is not empty, [Connection.search] returns at least one token,
    no token holds a space, and the tokens joined by single spaces are the
    first element of the payload. *)
Theorem search_tokens_rejoin (args : list string) (charset : option string)
  (self : Connection) (r0 : string) (rest : payload) :
  respond (parent self) (calls (parent self)) (search_call charset args)
  = Ok ("OK", r0 :: rest) ->
  r0 <> EmptyString ->
  exists ids,
    fst (Connection_search args charset self) = Ok ids
    /\ ids <> []
    /\ Forall (fun t => Str.lacks Str.space t = true) ids
    /\ Str.join " " ids = r0.
Proof.
  intros H Hne. exists (Str.split Str.space r0).
  rewrite (Connection_search_OK _ _ _ _ _ H).
  destruct (String.eqb_spec r0 EmptyString); [contradiction |].
  repeat split.
  - apply split_nonempty.
  - apply split_pieces_lack.
  - apply (join_split Str.space).
Qed.

Lemma search_tokens_rejoin_witness :
  exists ids,
    fst (Connection_search ["UNSEEN"] None
           (Connection__init__ (constant_server "OK" ["4  7"]))) = Ok ids
    /\ ids <> []
    /\ Forall (fun t => Str.lacks Str.space t = true) ids
    /\ Str.join " " ids = "4  7".
Proof.
  apply (search_tokens_rejoin ["UNSEEN"] None
           (Connection__init__ (constant_server "OK" ["4  7"])) "4  7" []).
  - reflexivity.
  - discriminate.
Defined.

(** X2: a search that the server accepts with an empty payload raises
    [IndexError], and one that it answers with another status raises
    [BadReturnStatus]; either way the search call has been made and the
    selection is as before. *)
Theorem search_failures (args : list string) (charset : option string)
  (self : Connection) (status : string) (p : payload) :
  respond (parent self) (calls (parent self)) (search_call charset args)
  = Ok (status, p) ->
  (status = "OK" -> p = [] ->
     fst (Connection_search args charset self)
     = Raise (IndexError "list index out of range"))
  /\ (status <> "OK" ->
     fst (Connection_search args charset self)
     = Raise (BadReturnStatus ("status was " ++ status)))
  /\ calls (parent (snd (Connection_search args charset self)))
     = (calls (parent self) ++ [search_call charset args])%list
  /\ mailbox (snd (Connection_search args charset self)) = mailbox self
  /\ readonly (snd (Connection_search args charset self)) = readonly self.
Proof.
  intros H. unfold Connection_search, bind, transport. rewrite H. simpl.
  split; [| split].
  - intros -> ->. reflexivity.
  - intros Hs. unfold lift. rewrite (_ok_other _ Hs). reflexivity.
  - unfold lift. destruct (_ok status) as [[] | e]; simpl; auto.
    destruct p as [| r0 rest]; simpl; auto.
    destruct (String.eqb r0 EmptyString); simpl; auto.
Qed.

Lemma search_failures_witness :
  fst (Connection_search ["ALL"] None (Connection__init__ (constant_server "OK" [])))
  = Raise (IndexError "list index out of range")
  /\ fst (Connection_search ["ALL"] None (Connection__init__ (constant_server "NO" [])))
     = Raise (BadReturnStatus "status was NO").
Proof.
  split.
  - apply (proj1 (search_failures ["ALL"] None
                    (Connection__init__ (constant_server "OK" [])) "OK" [] eq_refl));
      reflexivity.
  - apply (proj1 (proj2 (search_failures ["ALL"] None
                    (Connection__init__ (constant_server "NO" [])) "NO" [] eq_refl))).
    discriminate.
Defined.

(** ** Fetching *)

Lemma Connection_fetch_calls (nums args : list string) (self : Connection) :
  calls (parent (snd (Connection_fetch nums args self)))
  = (calls (parent self)
     ++ [fetch_call (Str.join " " nums) ("(" ++ Str.join " " args ++ ")")])%list.
Proof.
  unfold Connection_fetch, bind, transport.
  destruct (respond _ _ _) as [[status p] | e]; simpl; [| reflexivity].
  unfold lift. destruct (_ok status) as [[] | e]; reflexivity.
Qed.

(** X3: fetching the tokens that a search returned sends the server, as
    the set of messages, the very string that it gave as the result of the
    search. *)
Theorem fetch_of_search_result (args : list string) (charset : option string)
  (self : Connection) (r0 : string) (rest : payload) (ids : list string)
  (parts : list string) (self2 : Connection) :
  respond (parent self) (calls (parent self)) (search_call charset args)
  = Ok ("OK", r0 :: rest) ->
  fst (Connection_search args charset self) = Ok ids ->
  calls (parent (snd (Connection_fetch ids parts self2)))
  = (calls (parent self2)
     ++ [fetch_call r0 ("(" ++ Str.join " " parts ++ ")")])%list.
Proof.
  intros H Hids. rewrite Connection_fetch_calls.
  rewrite (Connection_search_OK _ _ _ _ _ H) in Hids.
  destruct (String.eqb_spec r0 EmptyString) as [-> | Hne].
  - inversion Hids; subst. reflexivity.
  - inversion Hids; subst. rewrite (join_split Str.space). reflexivity.
Qed.

Lemma fetch_of_search_result_witness :
  let self := Connection__init__ (constant_server "OK" ["3 5 8"]) in
  calls (parent (snd (Connection_fetch ["3"; "5"; "8"] ["FLAGS"; "UID"] self)))
  = [fetch_call "3 5 8" "(FLAGS UID)"].
Proof.
  apply (fetch_of_search_result ["ALL"] None
           (Connection__init__ (constant_server "OK" ["3 5 8"]))
           "3 5 8" [] ["3"; "5"; "8"] ["FLAGS"; "UID"]
           (Connection__init__ (constant_server "OK" ["3 5 8"]))).
  - reflexivity.
  - reflexivity.
Defined.




(** ** Logging in and constructing *)


Lemma Connection_login_refused (user password : string) (self : Connection)
  (status : string) (p : payload) :
  respond (parent self) (calls (parent self)) (login_call user password)
  = Ok (status, p) ->
  status <> "OK" ->
  fst (Connection_login user password self)
  = Raise (BadReturnStatus ("status was " ++ status)).
Proof.
  intros H Hs. unfold Connection_login, bind, transport. rewrite H. simpl.
  unfold lift. rewrite (_ok_other _ Hs). reflexivity.
Qed.

(** X5: [Connection.login] returns a message exactly when the server
    accepts the login with a payload that starts with that message; an
    accepted login with an empty payload raises [IndexError], and a
    refused one raises [BadReturnStatus]. *)
Theorem login_outcome (user password : string) (self : Connection) :
  (forall msg,
      fst (Connection_login user password self) = Ok msg
      <-> exists rest,
            respond (parent self) (calls (parent self)) (login_call user password)
            = Ok ("OK", msg :: rest))
  /\ (respond (parent self) (calls (parent self)) (login_call user password)
      = Ok ("OK", []) ->
      fst (Connection_login user password self)
      = Raise (IndexError "list index out of range"))
  /\ (forall status p,
        respond (parent self) (calls (parent self)) (login_call user password)
        = Ok (status, p) ->
        status <> "OK" ->
        fst (Connection_login user password self)
        = Raise (BadReturnStatus ("status was " ++ status))).
Proof.
  unfold Connection_login, bind, transport.
  split; [| split].
  - intros msg. split.
    + destruct (respond _ _ _) as [[status p] | e]; simpl; [| discriminate].
      unfold lift. destruct (_ok status) as [[] | e] eqn:E; simpl; [| discriminate].
      apply _ok_inv in E. subst status.
      destruct p as [| x rest]; simpl; [discriminate |].
      intros H. inversion H; subst. eauto.
    + intros (rest & ->). reflexivity.
  - intros ->. reflexivity.
  - intros status p H Hs. fold (Connection_login user password).
    apply (Connection_login_refused user password self status p H Hs).
Qed.

Lemma login_outcome_witness :
  fst (Connection_login "user" "secret"
         (Connection__init__ (constant_server "OK" [])))
  = Raise (IndexError "list index out of range")
  /\ fst (Connection_login "user" "secret"
            (Connection__init__ (constant_server "NO" ["refused"])))
     = Raise (BadReturnStatus "status was NO").
Proof.
  split.
  - apply (proj1 (proj2 (login_outcome "user" "secret"
                           (Connection__init__ (constant_server "OK" []))))).
    reflexivity.
  - apply (proj2 (proj2 (login_outcome "user" "secret"
                           (Connection__init__ (constant_server "NO" ["refused"]))))
             "NO" ["refused"]).
    + reflexivity.
    + discriminate.
Defined.





(** ** Forwarding to the parent *)

Lemma startswith_underscore (name : string) :
  Str.startswith "_" name = true <-> name = "_" ++ tail_of name.
Proof.
  destruct name as [| c r].
  - simpl. split; discriminate.
  - change (Str.startswith "_" (String c r))
      with (Ascii.eqb "_"%char c && true).
    change ("_" ++ tail_of (String c r)) with (String "_"%char r).
    destruct (Ascii.eqb_spec "_"%char c) as [<- | Hc].
    + split; reflexivity.
    + split; [discriminate |]. intros H. inversion H. congruence.
Qed.

(** X8: [Connection.__getattr__] returns a value exactly for a name made
    of an underscore and the name of an attribute of the parent, and the
    value is that attribute; for every other name, the lone underscore and
    a name without the underscore included, it raises [AttributeError]. *)
Theorem getattr_forwards {V : Type} (parent_getattr : string -> option V)
  (name : string) :
  (forall v,
      Connection___getattr__ parent_getattr name = Ok v
      <-> exists a, name = "_" ++ a /\ parent_getattr a = Some v)
  /\ ((forall a, name = "_" ++ a -> parent_getattr a = None) ->
      Connection___getattr__ parent_getattr name
      = Raise (AttributeError EmptyString)).
Proof.
  unfold Connection___getattr__. split.
  - intros v. split.
    + destruct (Str.startswith "_" name) eqn:E; [| discriminate].
      apply startswith_underscore in E.
      destruct (parent_getattr (tail_of name)) as [v' |] eqn:G; [| discriminate].
      intros H. inversion H; subst. eauto.
    + intros (a & -> & G). simpl. rewrite G. reflexivity.
  - intros H. destruct (Str.startswith "_" name) eqn:E; [| reflexivity].
    apply startswith_underscore in E. rewrite (H _ E). reflexivity.
Qed.

Lemma getattr_forwards_witness :
  let parent_getattr :=
    fun a => if String.eqb a "noop" then Some 1 else None in
  Connection___getattr__ parent_getattr "_missing"
  = Raise (AttributeError EmptyString).
Proof.
  refine (proj2 (getattr_forwards
            (fun a => if String.eqb a "noop" then Some 1 else None) "_missing") _).
  intros a H. simpl in H. inversion H. reflexivity.
Defined.

(** ** Storing flags on several messages *)

Lemma store_loop_ok messages command flags :
  forall acc self l self',
    store_loop messages command flags acc self = (Ok l, self') ->
    calls (parent self')
    = (calls (parent self) ++ store_calls messages command flags)%list
    /\ exists news,
         l = (acc ++ news)%list
         /\ length news = length messages
         /\ forall i, i < length messages ->
              respond (parent self)
                (calls (parent self)
                 ++ store_calls (firstn i messages) command flags)%list
                (store_call (nth i messages EmptyString) command flags)
              = Ok ("OK", nth i news []).
Proof.
  induction messages as [| message rest IH]; intros acc self l self' H.
  - simpl in H. unfold ret in H. inversion H; subst. split.
    + simpl. rewrite app_nil_r. reflexivity.
    + exists []. rewrite app_nil_r. repeat split. simpl. intros i Hi. lia.
  - simpl in H. unfold bind in H at 1. unfold transport in H.
    destruct (respond (parent self) (calls (parent self))
                (store_call message command flags)) as [[status p] | e] eqn:R;
      [| discriminate].
    unfold bind in H at 1. unfold lift in H at 1.
    destruct (_ok status) as [[] | e] eqn:E; [| discriminate].
    apply _ok_inv in E. subst status.
    apply IH in H. simpl in H. destruct H as (Hc & news & -> & Hlen & Hnth).
    split.
    + rewrite Hc. simpl. rewrite <- app_assoc. reflexivity.
    + exists (p :: news). split; [| split].
      * rewrite <- app_assoc. reflexivity.
      * simpl. rewrite Hlen. reflexivity.
      * intros [| i] Hi; simpl.
        -- rewrite app_nil_r. exact R.
        -- simpl in Hi. specialize (Hnth i ltac:(lia)).
           rewrite <- app_assoc in Hnth. exact Hnth.
Qed.

Lemma _ok_raises (status : string) (e : exn) :
  _ok status = Raise e ->
  status <> "OK" /\ e = BadReturnStatus ("status was " ++ status).
Proof.
  unfold _ok. destruct (String.eqb_spec status "OK"); simpl; [discriminate |].
  intros H. inversion H. auto.
Qed.

Lemma store_loop_raise messages command flags :
  forall acc self e self',
    store_loop messages command flags acc self = (Raise e, self') ->
    exists k,
      k < length messages
      /\ calls (parent self')
         = (calls (parent self)
            ++ store_calls (firstn (S k) messages) command flags)%list
      /\ (forall i, i < k ->
            exists p,
              respond (parent self)
                (calls (parent self)
                 ++ store_calls (firstn i messages) command flags)%list
                (store_call (nth i messages EmptyString) command flags)
              = Ok ("OK", p))
      /\ (respond (parent self)
            (calls (parent self)
             ++ store_calls (firstn k messages) command flags)%list
            (store_call (nth k messages EmptyString) command flags)
          = Raise e
          \/ exists status p,
               respond (parent self)
                 (calls (parent self)
                  ++ store_calls (firstn k messages) command flags)%list
                 (store_call (nth k messages EmptyString) command flags)
               = Ok (status, p)
               /\ status <> "OK"
               /\ e = BadReturnStatus ("status was " ++ status)).
Proof.
  induction messages as [| message rest IH]; intros acc self e self' H.
  - simpl in H. discriminate.
  - simpl in H. unfold bind in H at 1. unfold transport in H.
    destruct (respond (parent self) (calls (parent self))
                (store_call message command flags)) as [[status p] | e0] eqn:R.
    + unfold bind in H at 1. unfold lift in H at 1.
      destruct (_ok status) as [[] | e1] eqn:E.
      * apply _ok_inv in E. subst status.
        apply IH in H. simpl in H.
        destruct H as (k & Hk & Hc & Hbefore & Hlast).
        exists (S k). split; [simpl; lia |]. split; [| split].
        -- rewrite Hc. simpl. rewrite <- app_assoc. reflexivity.
        -- intros [| i] Hi.
           ++ exists p. simpl. rewrite app_nil_r. exact R.
           ++ destruct (Hbefore i ltac:(lia)) as (p' & Hp').
              exists p'. simpl. rewrite <- app_assoc in Hp'. exact Hp'.
        -- simpl. rewrite <- !app_assoc in Hlast. exact Hlast.
      * inversion H; subst. apply _ok_raises in E. destruct E as [Hs ->].
        exists 0. split; [simpl; lia |]. split; [reflexivity |].
        split; [intros i Hi; lia |].
        right. exists status, p. simpl. rewrite app_nil_r. auto.
    + inversion H; subst.
      exists 0. split; [simpl; lia |]. split; [reflexivity |].
      split; [intros i Hi; lia |].
      left. simpl. rewrite app_nil_r. exact R.
Qed.

(** X9: a [Connection.store] that returns has made one store call for
    each message, in the order of the messages and with the command token
    built from the command and the silent flag, and returns for each
    message, in that order, the payload with which the server accepted its
    call. *)
Theorem store_one_call_per_message (messages : list string)
  (flags command : string) (silent : bool) (self self' : Connection)
  (l : list payload) :
  Connection_store messages flags command silent self = (Ok l, self') ->
  calls (parent self')
  = (calls (parent self)
     ++ store_calls messages (store_command command silent) flags)%list
  /\ length l = length messages
  /\ forall i, i < length messages ->
       respond (parent self)
         (calls (parent self)
          ++ store_calls (firstn i messages) (store_command command silent) flags)%list
         (store_call (nth i messages EmptyString)
            (store_command command silent) flags)
       = Ok ("OK", nth i l []).
Proof.
  unfold Connection_store. fold (store_command command silent). intros H.
  apply store_loop_ok in H. destruct H as (Hc & news & -> & Hlen & Hnth).
  simpl. auto.
Qed.

Lemma store_one_call_per_message_witness :
  let self := Connection__init__ (constant_server "OK" ["(\Seen)"]) in
  calls (parent (snd (Connection_store ["1"; "2"] "\Seen" "-" true self)))
  = ([] ++ store_calls ["1"; "2"] (store_command "-" true) "\Seen")%list
  /\ length [["(\Seen)"]; ["(\Seen)"]] = length ["1"; "2"]
  /\ forall i, i < length ["1"; "2"] ->
       respond (parent self)
         ([] ++ store_calls (firstn i ["1"; "2"]) (store_command "-" true) "\Seen")%list
         (store_call (nth i ["1"; "2"] EmptyString) (store_command "-" true) "\Seen")
       = Ok ("OK", nth i [["(\Seen)"]; ["(\Seen)"]] []).
Proof.
  apply (store_one_call_per_message ["1"; "2"] "\Seen" "-" true
           (Connection__init__ (constant_server "OK" ["(\Seen)"]))).
  reflexivity.
Defined.

(** X10: a [Connection.store] that raises has made the store calls of a
    first part of the messages only, in their order: the server accepted
    all of them but the last, the exception comes from the last, and no
    call was made for the messages after it. *)
Theorem store_stops_at_first_failure (messages : list string)
  (flags command : string) (silent : bool) (self self' : Connection) (e : exn) :
  Connection_store messages flags command silent self = (Raise e, self') ->
  exists k,
    k < length messages
    /\ calls (parent self')
       = (calls (parent self)
          ++ store_calls (firstn (S k) messages)
               (store_command command silent) flags)%list
    /\ (forall i, i < k ->
          exists p,
            respond (parent self)
              (calls (parent self)
               ++ store_calls (firstn i messages)
                    (store_command command silent) flags)%list
              (store_call (nth i messages EmptyString)
                 (store_command command silent) flags)
            = Ok ("OK", p))
    /\ (respond (parent self)
          (calls (parent self)
           ++ store_calls (firstn k messages)
                (store_command command silent) flags)%list
          (store_call (nth k messages EmptyString)
             (store_command command silent) flags)
        = Raise e
        \/ exists status p,
             respond (parent self)
               (calls (parent self)
                ++ store_calls (firstn k messages)
                     (store_command command silent) flags)%list
               (store_call (nth k messages EmptyString)
                  (store_command command silent) flags)
             = Ok (status, p)
             /\ status <> "OK"
             /\ e = BadReturnStatus ("status was " ++ status)).
Proof.
  unfold Connection_store. fold (store_command command silent).
  apply store_loop_raise.
Qed.

Lemma store_stops_at_first_failure_witness :
  let self := Connection__init__ (failing_after 1 ["(\Seen)"]) in
  exists k,
    k < 3
    /\ calls (parent (snd (Connection_store ["1"; "2"; "3"] "\Seen" "+" false self)))
       = store_calls (firstn (S k) ["1"; "2"; "3"]) "+FLAGS" "\Seen".
Proof.
  destruct (store_stops_at_first_failure ["1"; "2"; "3"] "\Seen" "+" false
              (Connection__init__ (failing_after 1 ["(\Seen)"]))
              _ (BadReturnStatus "status was NO") eq_refl)
    as (k & Hk & Hc & _).
  exists k. split; [exact Hk | exact Hc].
Defined.

(** ** The listing as a dict *)

Lemma dict_get_set_same (boxes : listing) (name : string) (v : box_record) :
  dict_get (dict_set boxes name v) name = Some v.
Proof.
  induction boxes as [| [k w] r IH]; simpl.
  - rewrite String.eqb_refl. reflexivity.
  - destruct (String.eqb k name) eqn:E; simpl; rewrite E; [reflexivity | exact IH].
Qed.

Lemma dict_get_set_other (boxes : listing) (name other : string) (v : box_record) :
  other <> name ->
  dict_get (dict_set boxes name v) other = dict_get boxes other.
Proof.
  intros Hne. induction boxes as [| [k w] r IH]; simpl.
  - destruct (String.eqb_spec name other); [congruence | reflexivity].
  - destruct (String.eqb_spec k name) as [-> | Hk]; simpl.
    + destruct (String.eqb_spec name other); [congruence | reflexivity].
    + rewrite IH. reflexivity.
Qed.

Lemma dict_set_keys (boxes : listing) (name : string) (v : box_record) (k : string) :
  In k (map fst (dict_set boxes name v)) <-> k = name \/ In k (map fst boxes).
Proof.
  induction boxes as [| [k' w] r IH]; simpl.
  - intuition.
  - destruct (String.eqb_spec k' name) as [-> | Hk]; simpl.
    + intuition.
    + rewrite IH. intuition.
Qed.

Lemma dict_set_NoDup (boxes : listing) (name : string) (v : box_record) :
  NoDup (map fst boxes) -> NoDup (map fst (dict_set boxes name v)).
Proof.
  induction boxes as [| [k w] r IH]; simpl; intros H.
  - constructor; [intros [] | constructor].
  - inversion H as [| ? ? Hnin Hr]; subst.
    destruct (String.eqb_spec k name) as [-> | Hk]; simpl.
    + constructor; assumption.
    + constructor; [| apply IH, Hr].
      rewrite dict_set_keys. intros [-> | Hin]; [congruence | contradiction].
Qed.

Lemma dict_get_keys (boxes : listing) (name : string) :
  dict_get boxes name <> None <-> In name (map fst boxes).
Proof.
  induction boxes as [| [k w] r IH]; simpl.
  - intuition.
  - destruct (String.eqb_spec k name) as [-> | Hk].
    + split; [auto | discriminate].
    + rewrite IH. intuition.
Qed.

Lemma list_loop_app (pre post : list string) :
  forall boxes out,
    list_loop (pre ++ post) boxes = Ok out ->
    exists mid, list_loop pre boxes = Ok mid /\ list_loop post mid = Ok out.
Proof.
  induction pre as [| line pre IH]; intros boxes out H; simpl in *.
  - eauto.
  - destruct (_parse_list_response line) as [[[f d] n] | e]; [| discriminate].
    apply IH, H.
Qed.

Lemma list_loop_keeps (boxlist : list string) (name : string) :
  (forall line, In line boxlist -> ~ names_of line name) ->
  forall boxes out,
    list_loop boxlist boxes = Ok out -> dict_get out name = dict_get boxes name.
Proof.
  induction boxlist as [| line rest IH]; intros Hno boxes out H; simpl in H.
  - inversion H. reflexivity.
  - destruct (_parse_list_response line) as [[[f d] n] | e] eqn:E; [| discriminate].
    rewrite (IH (fun l Hl => Hno l (or_intror Hl)) _ _ H).
    apply dict_get_set_other. intros ->.
    apply (Hno line (or_introl eq_refl)). exists f, d. exact E.
Qed.

Lemma list_loop_NoDup (boxlist : list string) :
  forall boxes out,
    list_loop boxlist boxes = Ok out ->
    NoDup (map fst boxes) -> NoDup (map fst out).
Proof.
  induction boxlist as [| line rest IH]; intros boxes out H Hnd; simpl in H.
  - inversion H; subst. exact Hnd.
  - destruct (_parse_list_response line) as [[[f d] n] | e]; [| discriminate].
    apply (IH _ _ H). apply dict_set_NoDup, Hnd.
Qed.

Lemma list_loop_keys (boxlist : list string) :
  forall boxes out name,
    list_loop boxlist boxes = Ok out ->
    (In name (map fst out)
     <-> In name (map fst boxes)
         \/ exists line, In line boxlist /\ names_of line name).
Proof.
  induction boxlist as [| line rest IH]; intros boxes out name H; simpl in H.
  - inversion H; subst. split; [auto |].
    intros [Hin | (line & [] & _)]. exact Hin.
  - destruct (_parse_list_response line) as [[[f d] n] | e] eqn:E; [| discriminate].
    rewrite (IH _ _ name H), dict_set_keys. split.
    + intros [[-> | Hin] | (l & Hl & Hn)].
      * right. exists line. split; [left; reflexivity | exists f, d; exact E].
      * left. exact Hin.
      * right. exists l. split; [right; exact Hl | exact Hn].
    + intros [Hin | (l & [<- | Hl] & Hn)].
      * left. right. exact Hin.
      * left. left. destruct Hn as (f' & d' & E'). congruence.
      * right. exists l. auto.
Qed.

Lemma Connection_list_OK (args : list string) (self : Connection)
  (boxlist : list string) :
  respond (parent self) (calls (parent self)) (list_call args)
  = Ok ("OK", boxlist) ->
  fst (Connection_list args self) = list_loop boxlist [].
Proof.
  intros H. unfold Connection_list, bind, transport. rewrite H. reflexivity.
Qed.

(** X11: in the dict that [Connection.list] returns, a name has the flags
    and the delimiter of the last line of the listing that gives that
    name. *)
Theorem list_last_line_of_a_name (args : list string) (self : Connection)
  (pre post : list string) (line flags delimiter name : string)
  (boxes : listing) :
  respond (parent self) (calls (parent self)) (list_call args)
  = Ok ("OK", (pre ++ line :: post)%list) ->
  fst (Connection_list args self) = Ok boxes ->
  _parse_list_response line = Ok (flags, delimiter, name) ->
  (forall later, In later post -> ~ names_of later name) ->
  dict_get boxes name = Some (flags, delimiter).
Proof.
  intros H Hok Hline Hpost.
  rewrite (Connection_list_OK _ _ _ H) in Hok.
  apply list_loop_app in Hok. destruct Hok as (mid & _ & Hok).
  simpl in Hok. rewrite Hline in Hok.
  rewrite (list_loop_keeps post name Hpost _ _ Hok).
  apply dict_get_set_same.
Qed.

Lemma list_last_line_of_a_name_witness :
  let lines := [list_line "\Noselect" "/" "Drafts";
                list_line EmptyString "." "Drafts";
                list_line EmptyString "." "Sent"] in
  let self := Connection__init__ (constant_server "OK" lines) in
  dict_get [("Drafts", (EmptyString, ".")); ("Sent", (EmptyString, "."))] "Drafts"
  = Some (EmptyString, ".").
Proof.
  apply (list_last_line_of_a_name []
           (Connection__init__
              (constant_server "OK"
                 [list_line "\Noselect" "/" "Drafts";
                  list_line EmptyString "." "Drafts";
                  list_line EmptyString "." "Sent"]))
           [list_line "\Noselect" "/" "Drafts"]
           [list_line EmptyString "." "Sent"]
           (list_line EmptyString "." "Drafts")).
  - reflexivity.
  - reflexivity.
  - reflexivity.
  - intros later [<- | []] (f & d & E). vm_compute in E. discriminate.
Defined.

(** X12: the dict that [Connection.list] returns holds every name once,
    and holds exactly the names that the lines of the listing give. *)
Theorem list_names (args : list string) (self : Connection)
  (boxlist : list string) (boxes : listing) :
  respond (parent self) (calls (parent self)) (list_call args)
  = Ok ("OK", boxlist) ->
  fst (Connection_list args self) = Ok boxes ->
  NoDup (map fst boxes)
  /\ forall name,
       dict_get boxes name <> None
       <-> exists line, In line boxlist /\ names_of line name.
Proof.
  intros H Hok. rewrite (Connection_list_OK _ _ _ H) in Hok. split.
  - apply (list_loop_NoDup _ _ _ Hok). constructor.
  - intros name. rewrite dict_get_keys, (list_loop_keys _ _ _ name Hok).
    simpl. intuition.
Qed.

Lemma list_names_witness :
  let lines := [list_line "\Noselect" "/" "Drafts";
                list_line EmptyString "." "Drafts"] in
  NoDup (map fst [("Drafts", (EmptyString, "."))])
  /\ forall name,
       dict_get [("Drafts", (EmptyString, "."))] name <> None
       <-> exists line, In line lines /\ names_of line name.
Proof.
  apply (list_names []
           (Connection__init__
              (constant_server "OK"
                 [list_line "\Noselect" "/" "Drafts";
                  list_line EmptyString "." "Drafts"]))).
  - reflexivity.
  - reflexivity.
Defined.

Lemma list_loop_shaped (boxlist : list string) :
  Forall list_line_shape boxlist ->
  forall boxes, exists out, list_loop boxlist boxes = Ok out.
Proof.
  induction 1 as [| line rest Hs _ IH]; intros boxes; simpl.
  - eauto.
  - destruct (_parse_list_response_shaped _ Hs) as (f & d & n & tl & _ & -> & _).
    apply IH.
Qed.

(** X13: when the server accepts the list call, [Connection.list] returns
    a dict exactly when every line of the listing has the shape of a
    listing line. *)
Theorem list_succeeds_iff_all_shaped (args : list string) (self : Connection)
  (boxlist : list string) :
  respond (parent self) (calls (parent self)) (list_call args)
  = Ok ("OK", boxlist) ->
  (exists boxes, fst (Connection_list args self) = Ok boxes)
  <-> Forall list_line_shape boxlist.
Proof.
  intros H. rewrite (Connection_list_OK _ _ _ H). split.
  - intros (boxes & Hok). apply Forall_forall. intros line Hin.
    destruct (_parse_list_response line) as [[[f d] n] | e] eqn:E.
    + unfold _parse_list_response in E.
      destruct (Re.match_ _list_response_pattern line) as [gs |] eqn:Em;
        [| discriminate].
      eapply match_shape, Em.
    + apply _parse_list_response_raises in E. destruct E as [_ Hno].
      rewrite (list_loop_unshaped _ _ Hin Hno) in Hok. discriminate.
  - intros Hall. apply list_loop_shaped, Hall.
Qed.

Lemma list_succeeds_iff_all_shaped_witness :
  (exists boxes,
      fst (Connection_list []
             (Connection__init__ (constant_server "OK" ["INBOX"]))) = Ok boxes)
  <-> Forall list_line_shape ["INBOX"].
Proof.
  apply (list_succeeds_iff_all_shaped []
           (Connection__init__ (constant_server "OK" ["INBOX"])) ["INBOX"]).
  reflexivity.
Defined.

(** ** What every method keeps *)

Section Kept.

Variable I : Connection -> Prop.

Hypothesis I_call : forall c, is_select c = false -> keeps I (transport c).

Hypothesis I_switch : forall m r, keeps I (Connection_switch m r).

Lemma keeps_ret {A} (a : A) : keeps I (ret a).
Proof. intros self H. exact H. Qed.

Lemma keeps_raise {A} (e : exn) : keeps I (@raise A e).
Proof. intros self H. exact H. Qed.

Lemma keeps_lift {A} (r : result A) : keeps I (lift r).
Proof. intros self H. exact H. Qed.

Lemma keeps_get_mailbox : keeps I get_mailbox.
Proof. intros self H. exact H. Qed.

Lemma keeps_bind {A B} (m : M A) (f : A -> M B) :
  keeps I m -> (forall a, keeps I (f a)) -> keeps I (bind m f).
Proof.
  intros Hm Hf self H. unfold bind. specialize (Hm self H).
  destruct (m self) as [[a | e] self']; simpl in *.
  - apply Hf, Hm.
  - exact Hm.
Qed.

Ltac keeps_steps :=
  repeat (first
    [ apply keeps_ret | apply keeps_raise | apply keeps_lift
    | apply keeps_get_mailbox
    | apply I_switch
    | apply I_call; reflexivity
    | apply keeps_bind; [| intros [? ?] ]
    | apply keeps_bind; [| intros ? ] ]).

Lemma keeps_store_loop messages command flags acc :
  keeps I (store_loop messages command flags acc).
Proof.
  revert acc. induction messages as [| message rest IH]; intros acc; simpl.
  - apply keeps_ret.
  - keeps_steps. apply IH.
Qed.

Lemma keeps_MailBox__select (b : MailBox) : keeps I (MailBox__select b).
Proof.
  unfold MailBox__select. keeps_steps. destruct (negb _); keeps_steps.
Qed.

Lemma keeps_MailBox_store b messages flags command silent :
  keeps I (MailBox_store b messages flags command silent).
Proof.
  unfold MailBox_store. destruct (_readonly b); [apply keeps_raise |].
  apply keeps_bind; [apply keeps_MailBox__select |].
  intros _. apply keeps_store_loop.
Qed.

Lemma keeps_MailBox_fetch b nums args : keeps I (MailBox_fetch b nums args).
Proof.
  unfold MailBox_fetch. apply keeps_bind; [apply keeps_MailBox__select |].
  intros _. unfold Connection_fetch. keeps_steps.
Qed.

(** A property that the switch and every call but a select keep is kept
    by every method. *)
Lemma kept_by_every_method : every_method_keeps I.
Proof.
  unfold every_method_keeps. repeat apply conj; intros.
  - unfold Connection_login. keeps_steps.
  - unfold Connection_list. keeps_steps.
  - apply I_switch.
  - unfold Connection_select. keeps_steps.
  - unfold Connection_search. keeps_steps.
    destruct (String.eqb _ _); keeps_steps.
  - unfold Connection_fetch. keeps_steps.
  - apply keeps_store_loop.
  - unfold MailBox_search.
    apply keeps_bind; [apply keeps_MailBox__select |]. intros _.
    unfold Connection_search. keeps_steps.
    destruct (String.eqb _ _); keeps_steps.
  - apply keeps_MailBox_fetch.
  - apply keeps_MailBox_store.
  - apply keeps_MailBox_fetch.
  - unfold Message_store.
    apply keeps_bind; [apply keeps_MailBox_store | intros; apply keeps_lift].
Qed.

End Kept.

Lemma selected_after_snoc respond (rest : list call) (c : call) :
  forall history current,
    selected_after respond history (rest ++ [c]) current
    = select_step respond (history ++ rest) c
        (selected_after respond history rest current).
Proof.
  induction rest as [| a rest IH]; intros history current; simpl.
  - rewrite app_nil_r. reflexivity.
  - rewrite IH, <- app_assoc. reflexivity.
Qed.

Lemma cache_consistent_call (c : call) :
  is_select c = false -> keeps cache_consistent (transport c).
Proof.
  intros Hc self H. unfold cache_consistent, transport in *. simpl.
  rewrite selected_after_snoc, <- H.
  destruct c; try discriminate; reflexivity.
Qed.

Lemma cache_consistent_switch (m : string) (r : bool) :
  keeps cache_consistent (Connection_switch m r).
Proof.
  intros self H. unfold cache_consistent in *.
  unfold Connection_switch, bind, transport.
  destruct (respond (parent self) (calls (parent self)) (select_call m r))
    as [[status p] | e] eqn:R; simpl.
  - unfold lift. destruct (_ok status) as [[] | e] eqn:E; simpl.
    + apply _ok_inv in E. subst status.
      rewrite selected_after_snoc. simpl. rewrite R. reflexivity.
    + apply _ok_raises in E. destruct E as [Hs _].
      rewrite selected_after_snoc. simpl. rewrite R.
      destruct (String.eqb_spec status "OK"); [contradiction | exact H].
  - rewrite selected_after_snoc. simpl. rewrite R. exact H.
Qed.

(** X14: the cached mailbox name of a new connection is the mailbox of
    the last select call that the server accepted, INBOX before any, and
    every method of the three classes keeps it so, whether it returns or
    raises. *)
Theorem cache_follows_accepted_selects :
  (forall server, cache_consistent (Connection__init__ server))
  /\ (forall user password server self,
        Connection_new user password server = Ok self -> cache_consistent self)
  /\ every_method_keeps cache_consistent.
Proof.
  split; [| split].
  - intros server. reflexivity.
  - intros user password server self H.
    unfold Connection_new in H.
    destruct user as [u |], password as [p |];
      try (inversion H; subst; reflexivity).
    pose proof (proj1 (kept_by_every_method cache_consistent
                         cache_consistent_call cache_consistent_switch)
                  u p (Connection__init__ server) eq_refl) as K.
    destruct (Connection_login u p (Connection__init__ server)) as [[msg | e] s'];
      [| discriminate].
    inversion H; subst. exact K.
  - apply kept_by_every_method.
    + exact cache_consistent_call.
    + exact cache_consistent_switch.
Qed.

(** X15: no method of the three classes changes the cached read-only
    flag of the connection. *)
Theorem readonly_never_changes (flag : bool) :
  every_method_keeps (fun self => readonly self = flag).
Proof.
  apply kept_by_every_method.
  - intros c _ self H. exact H.
  - intros m r self H.
    destruct (Connection_switch_effect m r self) as (_ & Hr & _).
    rewrite Hr. exact H.
Qed.

(** ** Selecting before an operation *)

Lemma Connection_switch_calls (m : string) (r : bool) (self : Connection) :
  calls (parent (snd (Connection_switch m r self)))
  = (calls (parent self) ++ [select_call m r])%list.
Proof.
  unfold Connection_switch, bind, transport.
  destruct (respond _ _ _) as [[status p] | e]; simpl; [| reflexivity].
  unfold lift. destruct (_ok status) as [[] | e]; reflexivity.
Qed.

Lemma Connection_switch_returns (m : string) (r : bool) (self self' : Connection) :
  Connection_switch m r self = (Ok tt, self') -> mailbox self' = m.
Proof.
  unfold Connection_switch, bind, transport.
  destruct (respond _ _ _) as [[status p] | e]; [| discriminate].
  unfold lift. destruct (_ok status) as [[] | e]; [| discriminate].
  simpl. intros H. inversion H. reflexivity.
Qed.

Lemma MailBox__select_returns (b : MailBox) (self self' : Connection) :
  MailBox__select b self = (Ok tt, self') -> mailbox self' = _mailbox b.
Proof.
  destruct (String.eqb_spec (_mailbox b) (mailbox self)) as [E | Hne].
  - rewrite (MailBox__select_same _ _ E). intros H. inversion H; subst. auto.
  - rewrite (MailBox__select_other _ _ Hne). apply Connection_switch_returns.
Qed.

Lemma MailBox__select_refused (b : MailBox) (self : Connection)
  (status : string) (p : payload) :
  _mailbox b <> mailbox self ->
  respond (parent self) (calls (parent self))
    (select_call (_mailbox b) (_readonly b)) = Ok (status, p) ->
  status <> "OK" ->
  exists self',
    MailBox__select b self
    = (Raise (BadReturnStatus ("status was " ++ status)), self')
    /\ calls (parent self')
       = (calls (parent self) ++ [select_call (_mailbox b) (_readonly b)])%list.
Proof.
  intros Hne H Hs. rewrite (MailBox__select_other _ _ Hne).
  rewrite (Connection_switch_not_OK _ _ _ _ _ H Hs). eexists. split; reflexivity.
Qed.

(** X16: when the cached name is not the name of a mailbox and the server
    refuses the select call, the search, the fetch and (on a mailbox that
    is not read-only) the store of the mailbox raise [BadReturnStatus] for
    the status of the select, and the select call is the only call made:
    the operation itself never reaches the server. *)
Theorem refused_select_stops_operation (b : MailBox) (self : Connection)
  (status : string) (p : payload) :
  _mailbox b <> mailbox self ->
  respond (parent self) (calls (parent self))
    (select_call (_mailbox b) (_readonly b)) = Ok (status, p) ->
  status <> "OK" ->
  (forall args charset,
      fst (MailBox_search b args charset self)
      = Raise (BadReturnStatus ("status was " ++ status))
      /\ calls (parent (snd (MailBox_search b args charset self)))
         = (calls (parent self) ++ [select_call (_mailbox b) (_readonly b)])%list)
  /\ (forall nums args,
      fst (MailBox_fetch b nums args self)
      = Raise (BadReturnStatus ("status was " ++ status))
      /\ calls (parent (snd (MailBox_fetch b nums args self)))
         = (calls (parent self) ++ [select_call (_mailbox b) (_readonly b)])%list)
  /\ (forall messages flags command silent,
      _readonly b = false ->
      fst (MailBox_store b messages flags command silent self)
      = Raise (BadReturnStatus ("status was " ++ status))
      /\ calls (parent (snd (MailBox_store b messages flags command silent self)))
         = (calls (parent self) ++ [select_call (_mailbox b) (_readonly b)])%list).
Proof.
  intros Hne H Hs.
  destruct (MailBox__select_refused b self status p Hne H Hs) as (s' & E & Hc).
  split; [| split];
    [intros args charset | intros nums args
    | intros messages flags command silent Hrw].
  - unfold MailBox_search, bind. rewrite E. simpl. auto.
  - unfold MailBox_fetch, bind. rewrite E. simpl. auto.
  - unfold MailBox_store. rewrite Hrw. unfold bind. rewrite E. simpl.
    rewrite Hc, Hrw. auto.
Qed.

Lemma refused_select_stops_operation_witness :
  let b := {| _mailbox := "Archive"; _readonly := false |} in
  let self := Connection__init__ (constant_server "NO" []) in
  fst (MailBox_store b ["1"; "2"] "\Seen" "+" false self)
  = Raise (BadReturnStatus "status was NO")
  /\ calls (parent (snd (MailBox_store b ["1"; "2"] "\Seen" "+" false self)))
     = [select_call "Archive" false].
Proof.
  apply (proj2 (proj2 (refused_select_stops_operation
                         {| _mailbox := "Archive"; _readonly := false |}
                         (Connection__init__ (constant_server "NO" []))
                         "NO" [] ltac:(discriminate) eq_refl ltac:(discriminate)))).
  reflexivity.
Defined.

Lemma unchanged_bind_at {A B} (m : M A) (f : A -> M B) (self : Connection) :
  unchanged_selection self (snd (m self)) ->
  (forall a, quiet (f a)) ->
  unchanged_selection self (snd (bind m f self)).
Proof.
  intros Hm Hf. unfold bind.
  destruct (m self) as [[a | e] self']; simpl in *; [| exact Hm].
  destruct Hm as (H1 & H2 & H3). destruct (Hf a self') as (K1 & K2 & K3).
  unfold unchanged_selection. rewrite K1, K2, K3. auto.
Qed.

(** On a mailbox whose name is the cached one no operation selects. *)
Lemma selected_box_operations (b : MailBox) (self : Connection) :
  _mailbox b = mailbox self ->
  (forall args charset,
      unchanged_selection self (snd (MailBox_search b args charset self)))
  /\ (forall nums args,
      unchanged_selection self (snd (MailBox_fetch b nums args self)))
  /\ (forall messages flags command silent,
      unchanged_selection self
        (snd (MailBox_store b messages flags command silent self))).
Proof.
  intros Hname. split; [| split]; intros.
  - unfold MailBox_search.
    apply (unchanged_after_skip _ _ tt); [now apply MailBox__select_same |].
    apply quiet_search_rest.
  - unfold MailBox_fetch.
    apply (unchanged_after_skip _ _ tt); [now apply MailBox__select_same |].
    apply quiet_Connection_fetch.
  - unfold MailBox_store. destruct (_readonly b).
    + apply quiet_raise.
    + apply (unchanged_after_skip _ _ tt); [now apply MailBox__select_same |].
      apply quiet_Connection_store.
Qed.

(** X17: after a [MailBox.search] that returns, the cached name is the
    name of the mailbox, every message returned is bound to that mailbox,
    and a fetch or a store of any of these messages makes no select call
    and leaves the cached name and flag alone. *)
Theorem search_leaves_box_selected (b : MailBox) (args : list string)
  (charset : option string) (self self' : Connection) (found : list Message) :
  MailBox_search b args charset self = (Ok found, self') ->
  mailbox self' = _mailbox b
  /\ Forall (fun m => as_MailBox m = b) found
  /\ forall m, In m found ->
       (forall parts,
           unchanged_selection self' (snd (Message_fetch m parts self')))
       /\ (forall flags command silent,
           unchanged_selection self'
             (snd (Message_store m flags command silent self'))).
Proof.
  intros H. unfold MailBox_search, bind in H.
  destruct (MailBox__select b self) as [[[] | e] s1] eqn:Es; [| discriminate].
  apply MailBox__select_returns in Es.
  destruct (quiet_Connection_search args charset s1) as (Hm & _ & _).
  destruct (Connection_search args charset s1) as [[ids | e] s2];
    [| discriminate].
  simpl in Hm. unfold ret in H. inversion H; subst.
  assert (Hname : mailbox self' = _mailbox b) by congruence.
  assert (Hall : Forall (fun m => as_MailBox m = b)
                   (map (fun message => {| as_MailBox := b; num := message |}) ids)).
  { apply Forall_forall. intros m Hin. apply in_map_iff in Hin.
    destruct Hin as (i & <- & _). reflexivity. }
  split; [exact Hname |]. split; [exact Hall |].
  intros m Hin. rewrite Forall_forall in Hall. specialize (Hall m Hin).
  assert (Hmb : _mailbox (as_MailBox m) = mailbox self') by congruence.
  destruct (selected_box_operations (as_MailBox m) self' Hmb) as (_ & Hf & Hst).
  split.
  - intros parts. apply Hf.
  - intros flags command silent. unfold Message_store.
    apply unchanged_bind_at; [apply Hst | intros; apply quiet_lift].
Qed.

Lemma search_leaves_box_selected_witness :
  let b := {| _mailbox := "Archive"; _readonly := false |} in
  let self := Connection__init__ (constant_server "OK" ["7 9"]) in
  mailbox (snd (MailBox_search b ["ALL"] None self)) = "Archive"
  /\ Forall (fun m => as_MailBox m = b)
       [{| as_MailBox := b; num := "7" |}; {| as_MailBox := b; num := "9" |}].
Proof.
  destruct (search_leaves_box_selected
              {| _mailbox := "Archive"; _readonly := false |} ["ALL"] None
              (Connection__init__ (constant_server "OK" ["7 9"])) _ _ eq_refl)
    as (H1 & H2 & _).
  split; [exact H1 | exact H2].
Defined.

(** X18: a [Connection.select] that returns has made exactly the one
    select call, returns the mailbox of the name and flag asked for and
    leaves that name cached, so that a search on the returned mailbox
    makes no further select call. *)
Theorem select_returns_selected_box (m : string) (r : bool)
  (self self' : Connection) (b : MailBox) :
  Connection_select m r self = (Ok b, self') ->
  b = {| _mailbox := m; _readonly := r |}
  /\ mailbox self' = m
  /\ calls (parent self') = (calls (parent self) ++ [select_call m r])%list
  /\ forall args charset,
       select_count (snd (MailBox_search b args charset self'))
       = select_count self'.
Proof.
  intros H. unfold Connection_select, bind in H.
  pose proof (Connection_switch_calls m r self) as Hc.
  destruct (Connection_switch m r self) as [[[] | e] s1] eqn:Es; [| discriminate].
  apply Connection_switch_returns in Es.
  unfold ret in H. inversion H; subst. simpl in Hc.
  repeat split; auto.
  intros args charset.
  destruct (selected_box_operations {| _mailbox := mailbox self'; _readonly := r |}
              self' eq_refl) as (Hs & _).
  apply Hs.
Qed.

Lemma select_returns_selected_box_witness :
  let self := Connection__init__ (constant_server "OK" ["3"]) in
  {| _mailbox := "Archive"; _readonly := true |}
  = {| _mailbox := "Archive"; _readonly := true |}
  /\ mailbox (snd (Connection_select "Archive" true self)) = "Archive"
  /\ calls (parent (snd (Connection_select "Archive" true self)))
     = ([] ++ [select_call "Archive" true])%list
  /\ forall args charset,
       select_count (snd (MailBox_search {| _mailbox := "Archive"; _readonly := true |}
                            args charset (snd (Connection_select "Archive" true self))))
       = select_count (snd (Connection_select "Archive" true self)).
Proof.
  apply (select_returns_selected_box "Archive" true
           (Connection__init__ (constant_server "OK" ["3"]))).
  reflexivity.
Defined.

(** X19: [Connection.switch] makes its select call on every call, also
    for the name that is already cached, and so does [Connection.select]:
    only the operations of a mailbox skip the call. *)
Theorem switch_always_selects (m : string) (r : bool) (self : Connection) :
  calls (parent (snd (Connection_switch m r self)))
  = (calls (parent self) ++ [select_call m r])%list
  /\ calls (parent (snd (Connection_select m r self)))
     = (calls (parent self) ++ [select_call m r])%list
  /\ select_count (snd (Connection_switch (mailbox self) r self))
     = S (select_count self).
Proof.
  split; [| split].
  - apply Connection_switch_calls.
  - pose proof (Connection_switch_calls m r self) as Hc.
    unfold Connection_select, bind.
    destruct (Connection_switch m r self) as [[[] | e] s1]; exact Hc.
  - apply Connection_switch_effect.
Qed.

(** ** Which groups the pattern captures *)

Section Priority.

Context {G : Type} (k : string -> option G).

(** The lazy star captures no more than any run after which the
    continuation succeeds, and the greedy star no less. *)
Lemma star_lazy_shortest (s cap : string) (g : G) :
  Re.star_lazy k s = Some (cap, g) ->
  forall cap' tl' g',
    s = cap' ++ tl' -> k tl' = Some g' ->
    String.length cap <= String.length cap'.
Proof.
  revert cap. induction s as [| c r IH]; intros cap H cap' tl' g' Hs Hk;
    simpl in H.
  - destruct (k EmptyString); [| discriminate]. inversion H; subst. simpl. lia.
  - destruct (k (String c r)) as [g0 |] eqn:E0.
    + inversion H; subst. simpl. lia.
    + destruct (Re.dot c); [| discriminate].
      destruct (Re.star_lazy k r) as [[cap0 g0] |] eqn:E; [| discriminate].
      inversion H; subst.
      destruct cap' as [| c' cap']; simpl in Hs.
      * subst tl'. congruence.
      * inversion Hs; subst. simpl.
        specialize (IH cap0 eq_refl cap' tl' g' eq_refl Hk). lia.
Qed.

Lemma star_greedy_longest (s cap : string) (g : G) :
  Re.star_greedy k s = Some (cap, g) ->
  forall cap' tl' g',
    s = cap' ++ tl' -> Str.lacks Str.newline cap' = true -> k tl' = Some g' ->
    String.length cap' <= String.length cap.
Proof.
  revert cap. induction s as [| c r IH]; intros cap H cap' tl' g' Hs Hl Hk;
    simpl in H.
  - destruct cap'; [simpl; lia | discriminate].
  - destruct cap' as [| c' cap']; [simpl; lia |].
    simpl in Hs. inversion Hs; subst.
    simpl in Hl. apply andb_prop in Hl. destruct Hl as [Hd Hl].
    fold (Re.dot c') in Hd. rewrite Hd in H.
    destruct (star_greedy_complete k cap' tl' g' Hl Hk) as (cap0 & g0 & E).
    rewrite E in H. inversion H; subst. simpl.
    specialize (IH cap0 E cap' tl' g' eq_refl Hl Hk). lia.
Qed.

End Priority.

Lemma append_inv_head (a b c : string) : a ++ b = a ++ c -> b = c.
Proof.
  induction a as [| x a IH]; simpl; intros H; [exact H |].
  inversion H. auto.
Qed.

Lemma run_after_delimiter_some (rest : string) :
  exists gs,
    Re.run after_delimiter (String Str.dquote (String Str.space rest)) = Some gs.
Proof.
  unfold after_delimiter. rewrite !run_Lit_same, run_Group_greedy.
  destruct (star_greedy_here (Re.run []) rest [] eq_refl) as (cap & g & ->).
  eauto.
Qed.

Lemma run_after_flags_some (d rest : string) :
  Str.lacks Str.newline d = true ->
  exists gs,
    Re.run after_flags
      (String ")" (String Str.space (String Str.dquote
         (d ++ String Str.dquote (String Str.space rest))))) = Some gs.
Proof.
  intros Hd. destruct (run_after_delimiter_some rest) as (gs3 & H3).
  destruct (run_Group_complete "delimiter" true _ _ _ _ Hd H3) as (gs2 & H2).
  exists gs2. unfold after_flags. rewrite !run_Lit_same. exact H2.
Qed.

(** X20: of all the ways to read a line as flags in parentheses, a quoted
    delimiter and a rest, [_parse_list_response] returns the one with the
    shortest flags and, for these flags, the longest delimiter. *)
Theorem parse_shortest_flags_longest_delimiter
  (line f d name f' d' rest' : string) :
  _parse_list_response line = Ok (f, d, name) ->
  line = list_line f' d' rest' ->
  Str.lacks Str.newline f' = true ->
  Str.lacks Str.newline d' = true ->
  String.length f <= String.length f'
  /\ (f' = f -> String.length d' <= String.length d).
Proof.
  intros Hp -> Hf' Hd'.
  unfold _parse_list_response in Hp.
  destruct (Re.match_ _list_response_pattern (list_line f' d' rest'))
    as [gs |] eqn:E; [| discriminate].
  destruct (match_sound _ _ E) as (f0 & d0 & n0 & tl0 & -> & _).
  inversion Hp; subst f0 d0. clear Hp.
  unfold Re.match_, _list_response_pattern, list_line in E.
  change ("(" ++ f' ++ ") " ++ Str.q ++ d' ++ Str.q ++ " " ++ rest')
    with (String "(" (f' ++ String ")" (String Str.space (String Str.dquote
            (d' ++ String Str.dquote (String Str.space rest')))))) in E.
  rewrite run_Lit_same in E. fold after_flags in E.
  rewrite run_Group_lazy in E.
  destruct (Re.star_lazy (Re.run after_flags) _) as [[cap gs] |] eqn:El;
    [| discriminate].
  inversion E; subst cap gs. clear E.
  destruct (run_after_flags_some d' rest' Hd') as (gs2 & Hrest).
  split.
  - apply (star_lazy_shortest _ _ _ _ El f' _ gs2 eq_refl Hrest).
  - intros ->.
    destruct (star_lazy_sound _ _ _ _ El) as (tl & Htl & _ & Hk).
    apply append_inv_head in Htl. subst tl.
    unfold after_flags in Hk. rewrite !run_Lit_same in Hk.
    fold after_delimiter in Hk. rewrite run_Group_greedy in Hk.
    destruct (Re.star_greedy (Re.run after_delimiter) _) as [[cap gs] |] eqn:Eg;
      [| discriminate].
    inversion Hk; subst cap gs.
    destruct (run_after_delimiter_some rest') as (gs3 & Hname).
    apply (star_greedy_longest _ _ _ _ Eg d' _ gs3 eq_refl Hd' Hname).
Qed.

Lemma parse_shortest_flags_longest_delimiter_witness :
  let line := list_line "a" "/" ("x" ++ Str.q ++ " y") in
  String.length "a" <= String.length "a"
  /\ ("a" = "a" ->
      String.length "/" <= String.length ("/" ++ Str.q ++ " x")).
Proof.
  apply (parse_shortest_flags_longest_delimiter
           (list_line "a" "/" ("x" ++ Str.q ++ " y"))
           "a" ("/" ++ Str.q ++ " x") "y" "a" "/" ("x" ++ Str.q ++ " y"));
    reflexivity.
Defined.

(** ** What follows the first line *)

Section NextLine.

Context {G : Type} (k1 k2 : string -> option G) (junk : string).

Hypothesis k_same :
  forall s, Str.lacks Str.newline s = true ->
            k1 (s ++ String Str.newline junk) = k2 s.

Lemma star_greedy_next_line (s : string) :
  Str.lacks Str.newline s = true ->
  Re.star_greedy k1 (s ++ String Str.newline junk) = Re.star_greedy k2 s.
Proof.
  induction s as [| c r IH]; intros Hl.
  - pose proof (k_same EmptyString eq_refl) as K. simpl in K.
    simpl. rewrite K. reflexivity.
  - pose proof (k_same (String c r) Hl) as K. simpl in K.
    simpl in Hl. apply andb_prop in Hl.
    destruct Hl as [Hd Hr]. fold (Re.dot c) in Hd.
    simpl. rewrite Hd, (IH Hr), K. reflexivity.
Qed.

Lemma star_lazy_next_line (s : string) :
  Str.lacks Str.newline s = true ->
  Re.star_lazy k1 (s ++ String Str.newline junk) = Re.star_lazy k2 s.
Proof.
  induction s as [| c r IH]; intros Hl.
  - pose proof (k_same EmptyString eq_refl) as K. simpl in K.
    simpl. rewrite K. destruct (k2 EmptyString); reflexivity.
  - pose proof (k_same (String c r) Hl) as K. simpl in K.
    simpl in Hl. apply andb_prop in Hl.
    destruct Hl as [Hd Hr]. fold (Re.dot c) in Hd.
    simpl. rewrite Hd, (IH Hr), K. reflexivity.
Qed.

End NextLine.

Lemma run_Lit_other (c a : ascii) (p : Re.pattern) (r : string) :
  Ascii.eqb a c = false -> Re.run (Re.Lit c :: p) (String a r) = None.
Proof. intros H. simpl. rewrite H. reflexivity. Qed.

(** A pattern without a literal line feed matches a line and the same
    line followed by further lines alike. *)
Lemma run_next_line (p : Re.pattern) (junk : string) :
  literals_on_a_line p = true ->
  forall s, Str.lacks Str.newline s = true ->
            Re.run p (s ++ String Str.newline junk) = Re.run p s.
Proof.
  induction p as [| [c | name greedy] p IH]; intros Hp s Hl.
  - reflexivity.
  - simpl in Hp. apply andb_prop in Hp. destruct Hp as [Hc Hp].
    apply negb_true_iff in Hc.
    destruct s as [| a r].
    + change (EmptyString ++ String Str.newline junk)
        with (String Str.newline junk).
      rewrite run_Lit_other by (rewrite Ascii.eqb_sym; exact Hc).
      reflexivity.
    + simpl in Hl. apply andb_prop in Hl. destruct Hl as [_ Hr].
      simpl. destruct (Ascii.eqb a c); [apply (IH Hp r Hr) | reflexivity].
  - simpl in Hp. destruct greedy.
    + rewrite !run_Group_greedy.
      rewrite (star_greedy_next_line (Re.run p) (Re.run p) junk (IH Hp) s Hl).
      reflexivity.
    + rewrite !run_Group_lazy.
      rewrite (star_lazy_next_line (Re.run p) (Re.run p) junk (IH Hp) s Hl).
      reflexivity.
Qed.

(** X21: [_parse_list_response] reads the first line of its argument
    only: whatever follows a line feed changes neither the result nor the
    failure. *)
Theorem parse_reads_first_line_only (line junk : string) :
  Str.lacks Str.newline line = true ->
  _parse_list_response (line ++ String Str.newline junk)
  = _parse_list_response line.
Proof.
  intros Hl. unfold _parse_list_response, Re.match_.
  rewrite (run_next_line _list_response_pattern junk eq_refl line Hl).
  reflexivity.
Qed.

Lemma parse_reads_first_line_only_witness :
  _parse_list_response
    (list_line "\Marked" "/" "INBOX" ++ String Str.newline "* OK done")
  = Ok ("\Marked", "/", "INBOX").
Proof.
  rewrite (parse_reads_first_line_only (list_line "\Marked" "/" "INBOX")
             "* OK done" eq_refl).
  reflexivity.
Defined.
